(** * Lab report ingestion and clinical insight engine

    A shallow embedding of [src/services/labs_parser.py] and of the rule
    engine of [src/services/clinical_intelligence.py] (with the defaults of
    [src/services/settings_service.py] and [Measurement.bmi] of
    [src/services/measurements_service.py]).

    Conventions of the embedding.
    - A Python [str] is a list of code points ([str := list N]).
    - A Python [float] is an IEEE 754 binary64 number, a [spec_float] of
      the standard library with 53 bits of precision and exponents below
      1024: the operations round to nearest with ties to even, overflow to
      the infinities, and every comparison with NaN is false.  A decimal
      text or literal denotes the binary64 number nearest to it.
    - An exception is a [Raise] of the type [result]; the functions that
      cannot raise return their value.
    - The Unicode database of the interpreter is not part of the repository:
      the decimal digits and the case folding of the code points above 127
      are fields of the class [UnicodeData], with the one law that no
      decimal digit is white space; every result holds for every instance.
      The ASCII range and the white space table are concrete.
    - The string tags of the source ([mode], [status], [severity]) are
      enumerations. *)

From Stdlib Require Import Ascii String QArith Qround Qabs Lia Sorted.
From Stdlib Require Import SpecFloat.
From stdpp Require Import gmap strings list fin_maps pretty.

Local Open Scope N_scope.

(* ===================================================================== *)
(** ** Strings of code points *)
(* ===================================================================== *)

Abbreviation char := N (only parsing).
Abbreviation str := (list N) (only parsing).

(** A literal of the source, byte per byte (the literals used are ASCII). *)
Fixpoint lit (s : string) : str :=
  match s with
  | EmptyString => []
  | String a s' => N_of_ascii a :: lit s'
  end.

(** [str.isspace] of one character, which is also the class backslash-s of
    [re] on [str] patterns. *)
Definition is_space (c : char) : bool :=
  ((9 <=? c) && (c <=? 13)) || ((28 <=? c) && (c <=? 32))
  || (c =? 133) || (c =? 160) || (c =? 5760)
  || ((8192 <=? c) && (c <=? 8202))
  || (c =? 8232) || (c =? 8233) || (c =? 8239) || (c =? 8287) || (c =? 12288).

(** What the interpreter's Unicode tables say outside ASCII. *)
Class UnicodeData := {
  (** decimal value of a code point >= 128 with the Decimal property *)
  uni_decimal : N -> option N;
  (** full case folding of a code point >= 128 *)
  uni_casefold : N -> list N;
  (** no decimal digit is white space *)
  uni_decimal_not_space :
    forall c d, uni_decimal c = Some d -> is_space c = false
}.

Definition is_char (x : N) (c : char) : bool := c =? x.

Section Strings.
Context `{UnicodeData}.

(** Decimal value of a character: the class backslash-d of [re], and the
    digits [float] and [int] accept. *)
Definition digit_val (c : char) : option N :=
  if c <? 128 then (if (48 <=? c) && (c <=? 57) then Some (c - 48) else None)
  else uni_decimal c.

Definition is_digit (c : char) : bool :=
  match digit_val c with Some _ => true | None => false end.

End Strings.

(** [s.strip()] *)
Fixpoint lstrip (s : str) : str :=
  match s with
  | c :: s' => if is_space c then lstrip s' else s
  | [] => []
  end.
Fixpoint rstrip (s : str) : str :=
  match s with
  | c :: s' =>
      match rstrip s' with
      | [] => if is_space c then [] else [c]
      | r => c :: r
      end
  | [] => []
  end.
Definition strip (s : str) : str := rstrip (lstrip s).

(** [s.split(" ")]: cut at every single space; never the empty list. *)
Fixpoint split_space_aux (cur : str) (s : str) : list str :=
  match s with
  | [] => [rev cur]
  | c :: s' => if c =? 32 then rev cur :: split_space_aux [] s'
               else split_space_aux (c :: cur) s'
  end.
Definition split_space (s : str) : list str := split_space_aux [] s.

(** The line boundaries of [str.splitlines]. *)
Definition is_linebreak (c : char) : bool :=
  ((10 <=? c) && (c <=? 13)) || ((28 <=? c) && (c <=? 30))
  || (c =? 133) || (c =? 8232) || (c =? 8233).

(** [s.splitlines()]: the lines without their ends; a line feed right after
    a carriage return belongs to the same line end, and a text that ends
    with a line end has no empty last line. *)
Fixpoint splitlines_aux (after_cr : bool) (cur : str) (s : str) : list str :=
  match s with
  | [] => match cur with [] => [] | _ => [rev cur] end
  | c :: s' =>
      if after_cr && (c =? 10) then splitlines_aux false cur s'
      else if is_linebreak c then rev cur :: splitlines_aux (c =? 13) [] s'
      else splitlines_aux false (c :: cur) s'
  end.
Definition splitlines (s : str) : list str := splitlines_aux false [] s.

(** [" ".join(l)] *)
Fixpoint join_space (l : list str) : str :=
  match l with
  | [] => []
  | [x] => x
  | x :: l' => x ++ 32 :: join_space l'
  end.

(* ===================================================================== *)
(** ** The fragment of [re] the patterns use

    A backtracking matcher in continuation-passing style, greedy as
    Python's: a repetition first tries to take one more character, an
    optional part is first tried present, an alternation left to right. *)
(* ===================================================================== *)

Inductive regex : Type :=
| Eps
| Cls (p : char -> bool)          (* one character of a class *)
| Cat (r1 r2 : regex)
| Alt (r1 r2 : regex)
| Opt (r : regex)                 (* r? *)
| Star (p : char -> bool)         (* class*, greedy *)
| Group (g : string) (r : regex). (* (?P<g>r) *)

Definition Plus (p : char -> bool) : regex := Cat (Cls p) (Star p).
Definition Lit1 (c : N) : regex := Cls (is_char c).

Definition caps := list (string * str).

Fixpoint star_exec {A} (p : char -> bool) (s : str) (k : str -> option A)
  : option A :=
  match s with
  | c :: s' =>
      if p c then
        match star_exec p s' k with
        | Some x => Some x
        | None => k s
        end
      else k s
  | [] => k []
  end.

Fixpoint exec {A} (r : regex) (s : str) (cs : caps)
  (k : str -> caps -> option A) : option A :=
  match r with
  | Eps => k s cs
  | Cls p =>
      match s with
      | c :: s' => if p c then k s' cs else None
      | [] => None
      end
  | Cat r1 r2 => exec r1 s cs (fun s1 c1 => exec r2 s1 c1 k)
  | Alt r1 r2 =>
      match exec r1 s cs k with
      | Some x => Some x
      | None => exec r2 s cs k
      end
  | Opt r1 =>
      match exec r1 s cs k with
      | Some x => Some x
      | None => k s cs
      end
  | Star p => star_exec p s (fun s' => k s' cs)
  | Group g r1 =>
      exec r1 s cs
        (fun s' c' => k s' ((g, take (length s - length s') s) :: c'))
  end.

(** A match object: [start()], [end()] and the named groups. *)
Record match_obj := MatchObj {
  m_start : nat;
  m_end : nat;
  m_groups : caps
}.

Definition group (m : match_obj) (g : string) : str :=
  match List.find (fun e => String.eqb (fst e) g) (m_groups m) with
  | Some (_, t) => t
  | None => []
  end.

(** The match anchored at the head of [s], if any: the rest and the groups. *)
Definition match_here (r : regex) (s : str) : option (str * caps) :=
  exec r s [] (fun s' c => Some (s', c)).

Definition mk_match (pos : nat) (s rest : str) (c : caps) : match_obj :=
  MatchObj pos (pos + (length s - length rest)) c.

(** [rx.search(s)]: the match at the leftmost position that has one. *)
Fixpoint search_from (r : regex) (pos : nat) (s : str) : option match_obj :=
  match match_here r s with
  | Some (rest, c) => Some (mk_match pos s rest c)
  | None =>
      match s with
      | [] => None
      | _ :: s' => search_from r (S pos) s'
      end
  end.
Definition search (r : regex) (s : str) : option match_obj := search_from r 0 s.

(** [rx.finditer(s)]: the successive non-overlapping matches, left to right.
    [skip] counts the characters still covered by the previous match. *)
Fixpoint finditer_from (r : regex) (pos skip : nat) (s : str)
  : list match_obj :=
  match skip with
  | S k =>
      match s with
      | [] => []
      | _ :: s' => finditer_from r (S pos) k s'
      end
  | O =>
      match match_here r s with
      | Some (rest, c) =>
          mk_match pos s rest c ::
          match s with
          | [] => []
          | _ :: s' => finditer_from r (S pos) (pred (length s - length rest)) s'
          end
      | None =>
          match s with
          | [] => []
          | _ :: s' => finditer_from r (S pos) 0 s'
          end
      end
  end.
Definition finditer (r : regex) (s : str) : list match_obj :=
  finditer_from r 0 0 s.

(** [rx.fullmatch(s)] *)
Definition fullmatch (r : regex) (s : str) : option caps :=
  exec r s [] (fun s' c => match s' with [] => Some c | _ => None end).

(** [re.sub(rx, " ", s)] for a pattern [class+]: every maximal run of the
    class becomes one space. *)
Fixpoint sub_runs_space (p : char -> bool) (inrun : bool) (s : str) : str :=
  match s with
  | [] => []
  | c :: s' =>
      if p c then (if inrun then sub_runs_space p true s'
                   else 32 :: sub_runs_space p true s')
      else c :: sub_runs_space p false s'
  end.

(* ===================================================================== *)
(** ** Exceptions *)
(* ===================================================================== *)

Inductive exn := ValueError | IndexError | ZeroDivisionError.

Inductive result (A : Type) :=
| Ok (a : A)
| Raise (e : exn).
Arguments Ok {A} a.
Arguments Raise {A} e.

#[global] Instance result_ret : MRet result := fun _ a => Ok a.
#[global] Instance result_bind : MBind result := fun _ _ f r =>
  match r with
  | Ok a => f a
  | Raise e => Raise e
  end.

(* ===================================================================== *)
(** ** Numbers: binary64 *)
(* ===================================================================== *)

Abbreviation float := spec_float (only parsing).

Definition fadd (x y : float) : float := SFadd 53 1024 x y.
Definition fsub (x y : float) : float := SFsub 53 1024 x y.
Definition fmul (x y : float) : float := SFmul 53 1024 x y.
Definition fabs (x : float) : float := SFabs x.

(** [x < y] and [x <= y]; [x > y] is [flt y x] and [x >= y] is [fle y x].
    A comparison with NaN is false. *)
Definition flt (x y : float) : bool := SFltb x y.
Definition fle (x y : float) : bool := SFleb x y.

Definition is_nan (x : float) : bool :=
  match x with S754_nan => true | _ => false end.

(** [x == 0], of both zeros *)
Definition is_zero (x : float) : bool :=
  match x with S754_zero _ => true | _ => false end.

(** [x / y]: the division by a zero raises. *)
Definition fdiv (x y : float) : result float :=
  if is_zero y then Raise ZeroDivisionError else Ok (SFdiv 53 1024 x y).

(** The float nearest to [n / d], ties to even; [neg] is the sign. *)
Definition float_of_ratio (neg : bool) (n : N) (d : positive) : float :=
  let '(mz, ez, lz) := SFdiv_core_binary 53 1024 (Z.of_N n) 0 (Zpos d) 0 in
  binary_round_aux 53 1024 neg mz ez lz.

(** [float(z)] of an [int], which is also how an [int] enters an operation
    with a float. *)
Definition float_of_int (z : Z) : float := binary_normalize 53 1024 z 0 false.

(** The decimal literals of the source: [6.5] is the float nearest to
    65/10. *)
Definition float_literal (n : Number.number) : option spec_float :=
  let sign_digits (i : Decimal.signed_int) :=
    match i with
    | Decimal.Pos u => (false, u)
    | Decimal.Neg u => (true, u)
    end in
  match n with
  | Number.Decimal (Decimal.Decimal i f) =>
      let '(neg, ip) := sign_digits i in
      Some (float_of_ratio neg (N.of_uint (Decimal.app ip f))
              (Z.to_pos (10 ^ Z.of_nat (Decimal.nb_digits f))))
  | Number.Decimal (Decimal.DecimalExp i f e) =>
      let '(neg, ip) := sign_digits i in
      let x := (Z.of_int e - Z.of_nat (Decimal.nb_digits f))%Z in
      let n := N.of_uint (Decimal.app ip f) in
      Some (if (0 <=? x)%Z
            then float_of_ratio neg (n * Z.to_N (10 ^ x)) 1
            else float_of_ratio neg n (Z.to_pos (10 ^ (- x))))
  | _ => None
  end.
Definition float_unliteral (x : spec_float) : option Number.number := None.

Declare Scope b64_scope.
Delimit Scope b64_scope with b64.
Bind Scope b64_scope with spec_float.
Number Notation spec_float float_literal float_unliteral : b64_scope.

(** [max(a, b)]: [b] when it is greater than [a]. *)
Definition py_max (a b : float) : float := if flt a b then b else a.

(** Truth value of an optional float: [None] and the zeros are false. *)
Definition truthy (v : option float) : bool :=
  match v with
  | Some x => negb (is_zero x)
  | None => false
  end.

(** [a or b] on optional floats. *)
Definition py_or (a b : option float) : option float :=
  if truthy a then a else b.

Section Numbers.
Context `{UnicodeData}.

(** The longest prefix of decimal digits, as values, and what follows. *)
Fixpoint span_digits (s : str) : list N * str :=
  match s with
  | c :: s' =>
      match digit_val c with
      | Some d => let '(ds, r) := span_digits s' in (d :: ds, r)
      | None => ([], s)
      end
  | [] => ([], [])
  end.

Definition digits_to_Z (ds : list N) : Z :=
  fold_left (fun a d => (10 * a + Z.of_N d)%Z) ds 0%Z.

(** The float of a decimal numeral: the digits [ip] before the point and
    [fp] after it. *)
Definition mk_decimal (neg : bool) (ip fp : list N) : float :=
  float_of_ratio neg (Z.to_N (digits_to_Z (ip ++ fp)))
    (Z.to_pos (10 ^ Z.of_nat (length fp))).

(** [float(s)] on decimal literals: optional white space around, optional
    sign, digits with an optional point ("12", "12.5", "12.", ".5").  The
    other spellings [float] accepts (exponents, underscores, inf, nan) are
    answered [None] here; no caller of [_to_float] can produce them. *)
Definition py_float (s : str) : option float :=
  let t := strip s in
  let '(neg, t1) :=
    match t with
    | c :: r =>
        if c =? 45 then (true, r)
        else if c =? 43 then (false, r)
        else (false, t)
    | [] => (false, t)
    end in
  let '(ip, t2) := span_digits t1 in
  match t2 with
  | [] => match ip with [] => None | _ => Some (mk_decimal neg ip []) end
  | c :: t3 =>
      if c =? 46 then
        let '(fp, t4) := span_digits t3 in
        match t4 with
        | [] => match ip, fp with
                | [], [] => None
                | _, _ => Some (mk_decimal neg ip fp)
                end
        | _ => None
        end
      else None
  end.

(** [_to_float]: [float(s.replace(',', '.'))], [None] when it raises. *)
Definition _to_float (s : str) : option float :=
  py_float (map (fun c => if c =? 44 then 46 else c) s).

End Numbers.

(* ===================================================================== *)
(** ** labs_parser.py *)
(* ===================================================================== *)

Inductive Mode := MRange | MLt | MGt | MUnknown.

Record RefRange := mkRefRange {
  mode : Mode;
  low : option float;
  high : option float;
  text : str
}.

Inductive Status := Low | High | Borderline | Normal | Unknown.

Record LabRow := mkLabRow {
  test_name : str;
  result_text : str;
  result_value : option float;
  unit : str;
  ref_text : str;
  ref : RefRange;
  status : Status
}.

Definition is_dot_comma (c : char) : bool := (c =? 46) || (c =? 44).
Definition is_sign (c : char) : bool := (c =? 45) || (c =? 43).

Section LabsParser.
Context `{UnicodeData}.

(** digits, then optionally [.,] and digits *)
Definition UNSIGNED : regex :=
  Cat (Plus is_digit) (Opt (Cat (Cls is_dot_comma) (Plus is_digit))).
(** the number of the reference patterns: an optional minus first *)
Definition NUMBER : regex := Cat (Opt (Lit1 45)) UNSIGNED.

Definition _RE_RANGE : regex :=
  Cat (Group "low" NUMBER)
    (Cat (Star is_space)
      (Cat (Lit1 45) (Cat (Star is_space) (Group "high" NUMBER)))).
Definition _RE_LT : regex :=
  Cat (Lit1 60) (Cat (Star is_space) (Group "lim" NUMBER)).
Definition _RE_GT : regex :=
  Cat (Lit1 62) (Cat (Star is_space) (Group "lim" NUMBER)).
Definition _RE_NUM : regex := Cat (Opt (Cls is_sign)) UNSIGNED.

Definition parse_ref (ref_text : str) : RefRange :=
  let t := strip ref_text in
  match search _RE_RANGE t with
  | Some m =>
      mkRefRange MRange (_to_float (group m "low")) (_to_float (group m "high")) t
  | None =>
      match search _RE_LT t with
      | Some m => mkRefRange MLt None (_to_float (group m "lim")) t
      | None =>
          match search _RE_GT t with
          | Some m => mkRefRange MGt (_to_float (group m "lim")) None t
          | None => mkRefRange MUnknown None None t
          end
      end
  end.

End LabsParser.

(** The result of [parse_ref] on a two-number range, its text left out. *)
Definition range_of (lo hi : float) : RefRange :=
  mkRefRange MRange (Some lo) (Some hi) [].

(** The bounds a mode comes with. *)
Definition mode_bounds (r : RefRange) : Prop :=
  match mode r with
  | MRange => is_Some (low r) /\ is_Some (high r)
  | MLt => low r = None /\ is_Some (high r)
  | MGt => is_Some (low r) /\ high r = None
  | MUnknown => low r = None /\ high r = None
  end.

Definition default_borderline_ratio : float := 0.05.

Definition classify_value (value : option float) (ref : RefRange)
  (borderline_ratio : float) : Status :=
  match value with
  | None => Unknown
  | Some v =>
      match mode ref, low ref, high ref with
      | MRange, Some lo, Some hi =>
          if flt v lo then Low
          else if flt hi v then High
          else
            let span := py_max (fsub hi lo) 0.000001 in
            if fle v (fadd lo (fmul span borderline_ratio))
               || fle (fsub hi (fmul span borderline_ratio)) v
            then Borderline else Normal
      | MLt, _, Some hi =>
          if flt hi v then High
          else if fle (fmul hi (fsub 1 borderline_ratio)) v then Borderline
          else Normal
      | MGt, Some lo, _ =>
          if flt v lo then Low
          else if fle v (fmul lo (fadd 1 borderline_ratio)) then Borderline
          else Normal
      | _, _, _ => Unknown
      end
  end.

(** A row with a value, a reference of a known mode with its bounds, and a
    status that is not unknown. *)
Definition row_classified (row : LabRow) : Prop :=
  is_Some (result_value row)
  /\ (mode (ref row) = MRange \/ mode (ref row) = MLt \/ mode (ref row) = MGt)
  /\ mode_bounds (ref row)
  /\ (status row = Low \/ status row = High
      \/ status row = Borderline \/ status row = Normal).

Section Extractor.
Context `{UnicodeData}.

(** The loops over the three patterns and their matches, each match
    overwriting [ref_match]: what is left is the last match of the last
    pattern that has one. *)
Definition select_ref_match (raw : str) : option match_obj :=
  fold_left (fun _ m => Some m)
    (finditer _RE_RANGE raw ++ finditer _RE_LT raw ++ finditer _RE_GT raw)
    None.

(** The index of the rightmost token that is a number, if any. *)
Fixpoint rightmost_numeric (i : nat) (tokens : list str) : option nat :=
  match tokens with
  | [] => None
  | t :: rest =>
      match rightmost_numeric (S i) rest with
      | Some j => Some j
      | None =>
          match fullmatch _RE_NUM t with
          | Some _ => Some i
          | None => None
          end
      end
  end.

Definition _extract_row_from_line (line : str) : option LabRow :=
  let raw := sub_runs_space is_space false (strip line) in
  if (length raw <? 8)%nat then None
  else
    match select_ref_match raw with
    | None => None
    | Some ref_match =>
        let ref_text := strip (drop (m_start ref_match) raw) in
        let left := strip (take (m_start ref_match) raw) in
        let tokens := split_space left in
        match rightmost_numeric 0 tokens with
        | None => None
        | Some val_idx =>
            let result_text := nth val_idx tokens [] in
            let value := _to_float result_text in
            let unit :=
              if (val_idx + 1 <? length tokens)%nat
              then strip (join_space (drop (val_idx + 1) tokens))
              else [] in
            let name := strip (join_space (take val_idx tokens)) in
            if (length name <? 2)%nat then None
            else
              let ref := parse_ref ref_text in
              let status := classify_value value ref default_borderline_ratio in
              Some (mkLabRow name result_text value unit ref_text ref status)
        end
    end.

(** [parse_enabiz_text]: the rows of the lines that give one, in order. *)
Definition parse_enabiz_text (text : str) : list LabRow :=
  omap _extract_row_from_line (splitlines text).

End Extractor.

(** The tables of an interpreter that knows no digit and no case outside
    ASCII: the instance the concrete examples run on. *)
Definition ascii_only : UnicodeData :=
  {| uni_decimal := fun _ => None;
     uni_casefold := fun c => [c];
     uni_decimal_not_space := fun c d (E : None = Some d) =>
       match E in _ = o return match o with Some _ => is_space c = false | None => True end
       with eq_refl => I end |}.

(* ===================================================================== *)
(** ** clinical_intelligence.py: [norm_key] *)
(* ===================================================================== *)

Definition is_lower_alnum (c : char) : bool :=
  ((97 <=? c) && (c <=? 122)) || ((48 <=? c) && (c <=? 57)).
Definition not_lower_alnum (c : char) : bool := negb (is_lower_alnum c).

(** The table of [str.maketrans]: Turkish letters to their ASCII base. *)
Definition tr_map (c : char) : char :=
  if (c =? 305) || (c =? 304) then 105        (* dotless i, dotted I *)
  else if (c =? 351) || (c =? 350) then 115   (* s with cedilla *)
  else if (c =? 287) || (c =? 286) then 103   (* g with breve *)
  else if (c =? 252) || (c =? 220) then 117   (* u with diaeresis *)
  else if (c =? 246) || (c =? 214) then 111   (* o with diaeresis *)
  else if (c =? 231) || (c =? 199) then 99    (* c with cedilla *)
  else c.

(** The literal dictionary [synonyms], in source order. *)
Definition synonyms_table : list (string * string) :=
  [ ("c reaktif protein", "crp");
    ("c reaktif protein crp", "crp");
    ("crp turbidimetrik", "crp");
    ("hs crp", "hs crp");
    ("aclik kan sekeri", "glukoz aclik");
    ("glukoz aclik kan sekeri", "glukoz aclik");
    ("glukoz", "glukoz");
    ("hba1c", "hba1c");
    ("hb a1c", "hba1c");
    ("vitamin d", "25 oh vitamin d");
    ("25 oh vitamin d", "25 oh vitamin d");
    ("b12", "vitamin b12");
    ("vitamin b12", "vitamin b12");
    ("total kolesterol", "kolesterol total");
    ("kolesterol", "kolesterol total");
    ("ldl kolesterol", "ldl");
    ("hdl kolesterol", "hdl");
    ("trigliserid", "trigliserid");
    ("trigliserit", "trigliserid");
    ("alt", "alt");
    ("ast", "ast");
    ("ggt", "ggt");
    ("tsh", "tsh");
    ("ferritin", "ferritin");
    ("demir", "demir");
    ("ure", "ure");
    ("kreatinin", "kreatinin");
    ("egfr", "egfr");
    ("uric acid", "urik asit");
    ("urik asit", "urik asit");
    ("hemoglobin", "hemoglobin");
    ("hb", "hemoglobin") ].

Definition synonyms : gmap str str :=
  list_to_map (map (fun kv => (lit (fst kv), lit (snd kv))) synonyms_table).

(** Small letters and digits separated by single spaces; [after_space] says
    that the character before the text is a space. *)
Fixpoint tidy (after_space : bool) (s : str) : bool :=
  match s with
  | [] => true
  | c :: s' =>
      if c =? 32 then negb after_space && tidy true s'
      else is_lower_alnum c && tidy false s'
  end.

Section NormKey.
Context `{UnicodeData}.

(** [str.casefold] of one character: ASCII capitals to small letters, the
    interpreter's table above ASCII. *)
Definition casefold_char (c : char) : list char :=
  if c <? 128 then [if (65 <=? c) && (c <=? 90) then c + 32 else c]
  else uni_casefold c.

Definition casefold (s : str) : str := flat_map casefold_char s.

(** The text of [norm_key] before the synonym lookup. *)
Definition norm_text (name : str) : str :=
  let s := casefold (strip name) in
  let s := map tr_map s in
  let s := sub_runs_space not_lower_alnum false s in
  strip (sub_runs_space is_space false s).

Definition norm_key (name : str) : str :=
  let s := norm_text name in
  default s (synonyms !! s).

End NormKey.

(* ===================================================================== *)
(** ** Formatting and sorting *)
(* ===================================================================== *)

(** Round to the nearest integer, ties to even. *)
Definition round_half_even (q : Q) : Z :=
  let f := Qfloor q in
  match Qcompare (q - inject_Z f) (1 # 2) with
  | Lt => f
  | Gt => (f + 1)%Z
  | Eq => if Z.even f then f else (f + 1)%Z
  end.

Fixpoint zeros (n : nat) : string :=
  match n with
  | O => ""
  | S n' => String "0" (zeros n')
  end.

Definition fmt_abs (d : nat) (q : Q) : string :=
  let p := (10 ^ N.of_nat d)%N in
  let n := Z.to_N (round_half_even (q * inject_Z (Z.of_N p))) in
  let frac := pretty (n mod p)%N in
  (pretty (n / p)%N ++
   match d with
   | O => ""
   | _ => "." ++ zeros (d - String.length frac) ++ frac
   end)%string.

(** The sign bit of a float; NaN is written without sign. *)
Definition sign_bit (x : float) : bool :=
  match x with
  | S754_zero s | S754_infinity s | S754_finite s _ _ => s
  | S754_nan => false
  end.

(** The exact magnitude of a finite float. *)
Definition magnitude (x : float) : Q :=
  match x with
  | S754_finite _ m e =>
      if (0 <=? e)%Z then inject_Z (Zpos m * 2 ^ e)
      else (inject_Z (Zpos m) / inject_Z (2 ^ (- e)))%Q
  | _ => 0%Q
  end.

Definition fmt_digits (d : nat) (x : float) : string :=
  match x with
  | S754_nan => "nan"
  | S754_infinity _ => "inf"
  | _ => fmt_abs d (magnitude x)
  end.

(** The format [.df] of a float: the exact value rounded to [d] decimals,
    ties to even. *)
Definition fmt_f (d : nat) (x : float) : string :=
  ((if sign_bit x then "-" else "") ++ fmt_digits d x)%string.

(** The format [+.df]: the sign always written. *)
Definition fmt_f_plus (d : nat) (x : float) : string :=
  ((if sign_bit x then "-" else "+") ++ fmt_digits d x)%string.

(** [sorted(l, key=...)] and [l.sort(key=...)]: ascending in the key and
    stable.  Each element is inserted before the first one of the sorted
    tail whose key is not smaller, so equal keys keep their order. *)
Fixpoint insert_by {A} (key : A -> Z) (x : A) (l : list A) : list A :=
  match l with
  | [] => [x]
  | y :: l' =>
      if (key x <=? key y)%Z then x :: l else y :: insert_by key x l'
  end.

Definition sort_by {A} (key : A -> Z) (l : list A) : list A :=
  foldr (insert_by key) [] l.

(* ===================================================================== *)
(** ** settings_service.py: the default thresholds *)
(* ===================================================================== *)

Definition DEFAULT_CLINICAL_THRESHOLDS : gmap string float :=
  list_to_map
    [ ("weight_rate_info", 1.0%b64);
      ("weight_rate_warn", 2.0%b64);
      ("waist_info", 95.0%b64);
      ("waist_warn", 110.0%b64);
      ("crp_warn", 10.0%b64);
      ("hba1c_warn", 5.7%b64);
      ("hba1c_critical", 6.5%b64);
      ("ldl_warn", 160.0%b64);
      ("ldl_critical", 190.0%b64) ].

(** [float(self.th.get(key, dflt))], on a table of floats *)
Definition th_get (th : gmap string float) (key : string) (dflt : float)
  : float :=
  default dflt (th !! key).

(* ===================================================================== *)
(** ** clinical_intelligence.py: insights from lab rows *)
(* ===================================================================== *)

Inductive Severity := Critical | Warn | Info.

Record Insight := mkInsight {
  severity : Severity;
  title : string;
  detail : string
}.

(** [sev_order]; the engine builds no other severity, so the fallback rank 9
    of [sev_order.get] has no counterpart. *)
Definition sev_order (s : Severity) : Z :=
  match s with
  | Critical => 0
  | Warn => 1
  | Info => 2
  end.

Definition sort_by_severity (out : list Insight) : list Insight :=
  sort_by (fun i => sev_order (severity i)) out.

(** [a] may stand before [b] in a list sorted by severity. *)
Definition sev_le (a b : Insight) : Prop :=
  (sev_order (severity a) <= sev_order (severity b))%Z.

#[global] Instance Severity_eq_dec : EqDecision Severity.
Proof. solve_decision. Defined.

(** The insights of one severity, in the order of the list. *)
Definition of_severity (s : Severity) (l : list Insight) : list Insight :=
  filter (fun i => severity i = s) l.

(** A row of [lab_results] as the engine reads it: the keys [test_name],
    [result_value] and [status] of the dictionary. *)
Record lab_result := mkLabResult {
  row_test_name : str;
  row_result_value : option float;
  row_status : Status
}.

Definition is_none {A} (o : option A) : bool :=
  match o with None => true | Some _ => false end.

Section LabInsights.
Context `{UnicodeData}.
Variable th : gmap string float.

(** The lookup table: the first row of a key, replaced by a later one only
    when the kept row has no value and the later one has. *)
Definition by_key_step (by_key : gmap str lab_result) (r : lab_result)
  : gmap str lab_result :=
  let k := norm_key (row_test_name r) in
  match by_key !! k with
  | None => <[k := r]> by_key
  | Some cur =>
      if is_none (row_result_value cur) && negb (is_none (row_result_value r))
      then <[k := r]> by_key
      else by_key
  end.

Definition build_by_key (lab_rows : list lab_result) : gmap str lab_result :=
  fold_left by_key_step lab_rows ∅.

Variable by_key : gmap str lab_result.

Definition getv (key : string) : option float :=
  by_key !! lit key ≫= row_result_value.

Definition status_of (key : string) : Status :=
  match by_key !! lit key with
  | Some r => row_status r
  | None => Unknown
  end.

Definition is_high (s : Status) : bool :=
  match s with High => true | _ => false end.

Definition glycemic_rule : list Insight :=
  let g := py_or (getv "glukoz aclik") (getv "glukoz") in
  match getv "hba1c" with
  | Some a1c =>
      if fle (th_get th "hba1c_critical" 6.5) a1c then
        [mkInsight Critical ("HbA1c yüksek (" ++ fmt_f 2 a1c ++ ").")
           "Diyabet aralığı olabilir. Klinik doğrulama ve hekim değerlendirmesi önerilir."]
      else if fle (th_get th "hba1c_warn" 5.7) a1c then
        [mkInsight Warn ("HbA1c sınırda/yüksek (" ++ fmt_f 2 a1c ++ ").")
           "Prediyabet/insülin direnci açısından yaşam tarzı (lif, protein dengesi, aktivite, uyku) gözden geçirilebilir."]
      else
        [mkInsight Info ("HbA1c normal (" ++ fmt_f 2 a1c ++ ").")
           "Glikoz kontrolü iyi görünüyor; sürdürülebilir beslenme alışkanlığıyla devam."]
  | None =>
      match g with
      | Some g =>
          if fle 60 g && fle g 200 then
            if fle 126 g then
              [mkInsight Critical ("Açlık glukozu yüksek (" ++ fmt_f 0 g ++ ").")
                 "Diyabet aralığı olabilir. Klinik doğrulama ve hekim değerlendirmesi önerilir."]
            else if fle 100 g then
              [mkInsight Warn ("Açlık glukozu sınırda/yüksek (" ++ fmt_f 0 g ++ ").")
                 "Prediyabet/insülin direnci açısından beslenme ve aktivite düzeni planlanabilir."]
            else
              [mkInsight Info ("Açlık glukozu normal (" ++ fmt_f 0 g ++ ").")
                 "Glikoz kontrolü iyi görünüyor."]
          else []
      | None => []
      end
  end%string.

Definition ldl_rule : list Insight :=
  match getv "ldl" with
  | Some ldl =>
      if fle 40 ldl && fle ldl 250 then
        if fle (th_get th "ldl_critical" 190.0) ldl then
          [mkInsight Critical ("LDL çok yüksek (" ++ fmt_f 0 ldl ++ ").")
             "Ailevi hiperkolesterolemi dahil riskler için hekim değerlendirmesi gerekir."]
        else if fle (th_get th "ldl_warn" 160.0) ldl then
          [mkInsight Warn ("LDL yüksek (" ++ fmt_f 0 ldl ++ ").")
             "Doymuş yağ/ultra-işlenmiş gıda azaltımı, lif artırımı ve kilo/aktivite planı düşünülebilir."]
        else if fle 130 ldl then
          [mkInsight Warn ("LDL sınırda (" ++ fmt_f 0 ldl ++ ").")
             "Kalp-damar riski profiline göre hedefler belirlenebilir."]
        else []
      else []
  | None => []
  end%string.

Definition hdl_rule : list Insight :=
  match getv "hdl" with
  | Some hdl =>
      if fle 10 hdl && fle hdl 120 && flt hdl 40 then
        [mkInsight Warn ("HDL düşük (" ++ fmt_f 0 hdl ++ ").")
           "Düzenli aerobik aktivite, kilo yönetimi ve sigara varsa bırakma desteği yararlı olabilir."]
      else []
  | None => []
  end%string.

Definition tg_rule : list Insight :=
  match getv "trigliserid" with
  | Some tg =>
      if fle 30 tg && fle tg 800 then
        if fle 500 tg then
          [mkInsight Critical ("Trigliserid çok yüksek (" ++ fmt_f 0 tg ++ ").")
             "Pankreatit riski açısından acil hekim değerlendirmesi gerekebilir."]
        else if fle 200 tg then
          [mkInsight Warn ("Trigliserid yüksek (" ++ fmt_f 0 tg ++ ").")
             "Şeker/rafine karbonhidrat azaltımı, alkol varsa kısıtlama, omega-3 kaynakları ve aktivite planı düşünülebilir."]
        else if fle 150 tg then
          [mkInsight Warn ("Trigliserid sınırda (" ++ fmt_f 0 tg ++ ").")
             "Karbonhidrat kalitesi ve total enerji dengesi gözden geçirilebilir."]
        else []
      else []
  | None => []
  end%string.

Definition total_rule : list Insight :=
  match getv "kolesterol total" with
  | Some total =>
      if fle 80 total && fle total 400 && fle 240 total then
        [mkInsight Warn ("Total kolesterol yüksek (" ++ fmt_f 0 total ++ ").")
           "LDL/HDL/TG ile birlikte değerlendirilmelidir."]
      else []
  | None => []
  end%string.

(** One turn of the loop over [("alt","ALT"), ("ast","AST"), ("ggt","GGT")]. *)
Definition liver_rule (key label : string) : list Insight :=
  if is_high (status_of key) then
    [mkInsight Warn
       (label ++ " yüksek (" ++
        match getv key with None => "" | Some v => fmt_f 0 v end ++ ").")
       "Karaciğer yağlanması/alkol/ilaç etkisi gibi nedenler için klinik değerlendirme gerekir."]%string
  else [].

Definition thyroid_rule : list Insight :=
  match getv "tsh" with
  | Some tsh =>
      if fle 10 tsh then
        [mkInsight Critical ("TSH yüksek (" ++ fmt_f 2 tsh ++ ").")
           "Hipotiroidi olasılığı için hekim değerlendirmesi önerilir."]
      else if flt 4.5 tsh then
        [mkInsight Warn ("TSH yüksek (" ++ fmt_f 2 tsh ++ ").")
           "Tiroid fonksiyonları için klinik doğrulama önerilir."]
      else if flt tsh 0.1 then
        [mkInsight Critical ("TSH çok düşük (" ++ fmt_f 2 tsh ++ ").")
           "Hipertiroidi olasılığı için hekim değerlendirmesi önerilir."]
      else if flt tsh 0.4 then
        [mkInsight Warn ("TSH düşük (" ++ fmt_f 2 tsh ++ ").")
           "Tiroid fonksiyonları için klinik doğrulama önerilir."]
      else []
  | None => []
  end%string.

Definition ferritin_rule : list Insight :=
  match getv "ferritin" with
  | Some ferr =>
      if flt ferr 15 then
        [mkInsight Warn ("Ferritin düşük (" ++ fmt_f 1 ferr ++ ").")
           "Demir depoları düşük olabilir. Diyet (heme/non-heme demir), C vitamini eşleştirme ve hekim değerlendirmesi düşünülür."]
      else []
  | None => []
  end%string.

Definition vitd_rule : list Insight :=
  match getv "25 oh vitamin d" with
  | Some vitd =>
      if flt vitd 10 then
        [mkInsight Warn ("Vitamin D çok düşük (" ++ fmt_f 1 vitd ++ ").")
           "Güneşlenme ve hekim kontrolünde destek planı değerlendirilebilir."]
      else if flt vitd 20 then
        [mkInsight Warn ("Vitamin D düşük (" ++ fmt_f 1 vitd ++ ").")
           "Yeterli güneşlenme ve hekim kontrolünde destek değerlendirilebilir."]
      else if flt vitd 30 then
        [mkInsight Info ("Vitamin D sınırda (" ++ fmt_f 1 vitd ++ ").")
           "Sürdürülebilir düzey için yaşam tarzı destekleri planlanabilir."]
      else []
  | None => []
  end%string.

Definition b12_rule : list Insight :=
  match getv "vitamin b12" with
  | Some b12 =>
      if flt b12 200 then
        [mkInsight Warn ("B12 düşük (" ++ fmt_f 0 b12 ++ ").")
           "Hayvansal kaynak alımı, emilim sorunları ve hekim kontrolünde destek planı değerlendirilebilir."]
      else []
  | None => []
  end%string.

Definition crp_rule : list Insight :=
  match py_or (getv "crp") (getv "hs crp") with
  | Some crp =>
      if is_high (status_of "crp") || flt (th_get th "crp_warn" 10.0) crp then
        [mkInsight Warn ("CRP yüksek (" ++ fmt_f 1 crp ++ ").")
           "Akut enfeksiyon/iltihap olabilir. Klinik tablo ile birlikte değerlendirilmelidir."]
      else []
  | None => []
  end%string.

Definition egfr_rule : list Insight :=
  match getv "egfr" with
  | Some egfr =>
      if flt egfr 60 then
        [mkInsight Warn ("eGFR düşük (" ++ fmt_f 0 egfr ++ ").")
           "Böbrek fonksiyonu için hekim değerlendirmesi gerekir (protein/ilaç/hipertansiyon vb.)."]
      else []
  | None => []
  end%string.

Definition kreatinin_rule : list Insight :=
  match getv "kreatinin" with
  | Some kreat =>
      if is_high (status_of "kreatinin") then
        [mkInsight Warn ("Kreatinin yüksek (" ++ fmt_f 2 kreat ++ ").")
           "Böbrek fonksiyonu/hidrasyon/ilaçlar ile birlikte değerlendirme önerilir."]
      else []
  | None => []
  end%string.

(** What the rules append to [out], in the order they run. *)
Definition lab_rules : list Insight :=
  glycemic_rule ++ ldl_rule ++ hdl_rule ++ tg_rule ++ total_rule
  ++ liver_rule "alt" "ALT" ++ liver_rule "ast" "AST" ++ liver_rule "ggt" "GGT"
  ++ thyroid_rule ++ ferritin_rule ++ vitd_rule ++ b12_rule
  ++ crp_rule ++ egfr_rule ++ kreatinin_rule.

End LabInsights.

(** The keys the rules look up in the table. *)
Definition rule_keys : list string :=
  [ "glukoz aclik"; "glukoz"; "hba1c"; "ldl"; "hdl"; "trigliserid";
    "kolesterol total"; "alt"; "ast"; "ggt"; "tsh"; "ferritin";
    "25 oh vitamin d"; "vitamin b12"; "crp"; "hs crp"; "egfr"; "kreatinin" ].

(** A row whose test no rule looks at. *)
Definition unrecognized `{UnicodeData} (r : lab_result) : Prop :=
  Forall (fun k => norm_key (row_test_name r) <> lit k) rule_keys.

Definition lab_neutral_note : Insight :=
  mkInsight Info "Belirgin bir otomatik uyarı bulunamadı."
    "Değerleri klinik bağlam ve danışan öyküsüyle birlikte yorumlayın.".

Section LabInsightsEntry.
Context `{UnicodeData}.

(** The list [out] just before it is sorted. *)
Definition lab_emitted (th : gmap string float) (lab_rows : list lab_result)
  : list Insight :=
  let out := lab_rules th (build_by_key lab_rows) in
  match out, lab_rows with
  | [], _ :: _ => [lab_neutral_note]
  | _, _ => out
  end.

Definition lab_insights (th : gmap string float) (lab_rows : list lab_result)
  : list Insight :=
  sort_by_severity (lab_emitted th lab_rows).

End LabInsightsEntry.

(* ===================================================================== *)
(** ** Dates: [datetime.strptime(s, "%Y-%m-%d")] *)
(* ===================================================================== *)

Definition in_range (a b : N) (c : char) : bool := (a <=? c) && (c <=? b).

Definition is_leap (y : Z) : bool :=
  ((y mod 4 =? 0) && (negb (y mod 100 =? 0) || (y mod 400 =? 0)))%Z.

Definition days_in_month (y m : Z) : Z :=
  if (m =? 2)%Z then (if is_leap y then 29 else 28)%Z
  else if ((m =? 4) || (m =? 6) || (m =? 9) || (m =? 11))%Z then 30%Z
  else 31%Z.

Definition days_before_year (y : Z) : Z :=
  let y1 := (y - 1)%Z in (y1 * 365 + y1 / 4 - y1 / 100 + y1 / 400)%Z.

Fixpoint days_before_month_aux (y : Z) (n : nat) : Z :=
  match n with
  | O => 0%Z
  | S n' => (days_before_month_aux y n' + days_in_month y (Z.of_nat n))%Z
  end.
Definition days_before_month (y m : Z) : Z :=
  days_before_month_aux y (Z.to_nat (m - 1)).

(** [date(y, m, d).toordinal()] *)
Definition ymd2ord (y m d : Z) : Z :=
  (days_before_year y + days_before_month y m + d)%Z.

Section Dates.
Context `{UnicodeData}.

(** The pattern [_strptime] builds for the format: four digits, a month
    and a day with or without a leading zero. *)
Definition DATE_RE : regex :=
  let d := Cls is_digit in
  Cat (Group "Y" (Cat d (Cat d (Cat d d))))
    (Cat (Lit1 45)
      (Cat (Group "m"
             (Alt (Cat (Lit1 49) (Cls (in_range 48 50)))
               (Alt (Cat (Lit1 48) (Cls (in_range 49 57)))
                    (Cls (in_range 49 57)))))
        (Cat (Lit1 45)
          (Group "d"
            (Alt (Cat (Lit1 51) (Cls (in_range 48 49)))
              (Alt (Cat (Cls (in_range 49 50)) d)
                (Alt (Cat (Lit1 48) (Cls (in_range 49 57)))
                  (Alt (Cls (in_range 49 57))
                       (Cat (Lit1 32) (Cls (in_range 49 57))))))))))).

(** [int(s)] on what the groups of [DATE_RE] hold: digits, white space
    around them allowed. *)
Definition py_int (s : str) : option Z :=
  match span_digits (strip s) with
  | (d :: ds, []) => Some (digits_to_Z (d :: ds))
  | _ => None
  end.

(** The day number of the parsed date; [None] stands for the [ValueError]
    of a text that does not match, has characters left over, or names a
    day that does not exist. *)
Definition strptime_ymd (s : str) : option Z :=
  match match_here DATE_RE s with
  | Some ([], c) =>
      let g := group (MatchObj 0 (length s) c) in
      y ← py_int (g "Y");
      m ← py_int (g "m");
      d ← py_int (g "d");
      if ((1 <=? y) && (d <=? days_in_month y m))%Z
      then Some (ymd2ord y m d) else None
  | _ => None
  end.

End Dates.

(* ===================================================================== *)
(** ** clinical_intelligence.py: alerts from the measurement history *)
(* ===================================================================== *)

(** The fields of [Measurement] the engine reads. *)
Record Measurement := mkMeasurement {
  measured_at : str;
  height_cm : option float;
  weight_kg : option float;
  waist_cm : option float
}.

(** [Measurement.bmi]: the second division raises when the square of the
    height in metres is zero. *)
Definition bmi (m : Measurement) : result (option float) :=
  match height_cm m, weight_kg m with
  | Some h, Some w =>
      if negb (truthy (Some h)) || negb (truthy (Some w)) then Ok None
      else
        h_m ← fdiv h 100.0;
        if fle h_m 0 then Ok None
        else b ← fdiv w (fmul h_m h_m); Ok (Some b)
  | _, _ => Ok None
  end.

(** [(m.weight_kg or 0) > 0] *)
Definition weight_bearing (m : Measurement) : bool :=
  flt 0 (default 0%b64 (py_or (weight_kg m) (Some 0%b64))).

Definition need_more_data : Insight :=
  mkInsight Info "Trend analizi için en az 2 ölçüm gerekir."
    "Yeni ölçüm girildikçe trend uyarıları otomatik oluşur.".

Definition no_trend_risk : Insight :=
  mkInsight Info "Ölçüm trendinde belirgin risk/uyarı bulunamadı."
    "Düzenli ölçüm ve notlarla takip sürdürülebilir hale gelir.".

(** A measurement with the day number [to_dt] gave it. *)
Abbreviation dated := (Z * Measurement)%type (only parsing).

Section MeasurementAlerts.
Variable th : gmap string float.

(** The number of days between the two dates, 1 when it is 0. *)
Definition days_between (latest prev : dated) : Z :=
  (if (fst latest - fst prev =? 0)%Z then 1 else fst latest - fst prev)%Z.

Definition weight_change_rule (latest prev : dated) : result (list Insight) :=
  match weight_kg (snd latest), weight_kg (snd prev) with
  | Some wl, Some wp =>
      if truthy (Some wl) && truthy (Some wp) then
        let dw := fsub wl wp in
        let days := days_between latest prev in
        per_day ← fdiv dw (float_of_int days);
        let rate_week := fmul per_day 7.0 in
        Ok
          (if fle (th_get th "weight_rate_warn" 2.0) (fabs rate_week) then
             [mkInsight Warn
                ("Kilo değişimi hızlı (" ++ fmt_f_plus 1 dw ++ " kg / "
                 ++ pretty days ++ "g).")
                "Hızlı değişimler sıvı/ödem, uyum veya ölçüm koşulları kaynaklı olabilir; plan ve takip sıklığı gözden geçirilebilir."]
           else if fle (th_get th "weight_rate_info" 1.0) (fabs rate_week) then
             [mkInsight Info
                ("Kilo değişimi belirgin (" ++ fmt_f_plus 1 dw ++ " kg / "
                 ++ pretty days ++ "g).")
                "Hedefe göre sürdürülebilir hız değerlendirmesi yapılabilir."]
           else [])
      else Ok []
  | _, _ => Ok []
  end%string.

Definition bmi_rule (latest : Measurement) : result (list Insight) :=
  b ← bmi latest;
  Ok
    match b with
    | Some b =>
        if fle 35 b then
          [mkInsight Warn ("BMI yüksek (" ++ fmt_f 1 b ++ ").")
             "Kardiyometabolik risk profiline göre planlama ve hekim iş birliği gerekebilir."]
        else if fle 30 b then
          [mkInsight Warn ("Obezite aralığı BMI (" ++ fmt_f 1 b ++ ").")
             "Yaşam tarzı, uyku, stres ve aktivite ile birlikte sürdürülebilir kilo yönetimi planı önerilir."]
        else if fle 25 b then
          [mkInsight Info ("Fazla kilo aralığı BMI (" ++ fmt_f 1 b ++ ").")
             "Hedefler danışan beklentisi ve klinik duruma göre netleştirilebilir."]
        else []
    | None => []
    end%string.

Definition waist_rule (latest : Measurement) : list Insight :=
  match waist_cm latest with
  | Some w =>
      if truthy (Some w) then
        if fle (th_get th "waist_warn" 110.0) w then
          [mkInsight Warn ("Bel çevresi yüksek (" ++ fmt_f 0 w ++ " cm).")
             "Santral obezite açısından risk artabilir; beslenme + aktivite planı ve takip önerilir."]
        else if fle (th_get th "waist_info" 95.0) w then
          [mkInsight Info ("Bel çevresi izlenmeli (" ++ fmt_f 0 w ++ " cm).")
             "Kilo/yağ dağılımı hedefleri ile birlikte takip edilebilir."]
        else []
      else []
  | None => []
  end%string.

(** The direction of the last three weights. *)
Definition trend_rule (ms_sorted : list dated) : list Insight :=
  if (3 <=? length ms_sorted)%nat then
    let last3 := drop (length ms_sorted - 3) ms_sorted in
    let w3 := omap (fun m => if truthy (weight_kg (snd m))
                             then weight_kg (snd m) else None) last3 in
    match w3 with
    | [w0; w1; w2] =>
        if flt w1 w2 && flt w0 w1 then
          [mkInsight Warn "Son 3 ölçümde kilo artış trendi var."
             "Uygunluk, toplam enerji dengesi ve aktivite planı gözden geçirilebilir."]
        else if flt w2 w1 && flt w1 w0 then
          [mkInsight Info "Son 3 ölçümde kilo düşüş trendi var."
             "Hız ve sürdürülebilirlik hedefe göre değerlendirilebilir."]
        else []
    | _ => []
    end
  else [].

(** What the rules append to [out], in the order they run. *)
Definition measurement_rules (ms_sorted : list dated) (latest prev : dated)
  : result (list Insight) :=
  change ← weight_change_rule latest prev;
  mass ← bmi_rule (snd latest);
  Ok (change ++ mass ++ waist_rule (snd latest) ++ trend_rule ms_sorted).

(** The list [out] just before it is sorted. *)
Definition measurement_emitted (ms_sorted : list dated) (latest prev : dated)
  : result (list Insight) :=
  out ← measurement_rules ms_sorted latest prev;
  Ok match out with
     | [] => [no_trend_risk]
     | _ => out
     end.

Context `{UnicodeData}.

(** [to_dt] on every point, as [sorted] calls it to build the keys. *)
Definition date_all (ms : list Measurement) : option (list dated) :=
  mapM (fun m => d ← strptime_ymd (measured_at m); Some (d, m)) ms.

(** The list [measurement_alerts] holds just before its last two lines sort
    it (the early answer for a short history is never sorted). *)
Definition measurement_out (ms : list Measurement) : result (list Insight) :=
  let ms := filter (fun m => weight_bearing m = true) ms in
  if (length ms <? 2)%nat then Ok [need_more_data]
  else
    match date_all ms with
    | None => Raise ValueError
    | Some keyed =>
        let ms_sorted := sort_by fst keyed in
        match rev ms_sorted with
        | latest :: prev :: _ => measurement_emitted ms_sorted latest prev
        | _ => Raise IndexError
        end
    end.

(** [ms] is what [list_for_client] returned. *)
Definition measurement_alerts (ms : list Measurement) : result (list Insight) :=
  let ms := filter (fun m => weight_bearing m = true) ms in
  if (length ms <? 2)%nat then Ok [need_more_data]
  else
    match date_all ms with
    | None => Raise ValueError
    | Some keyed =>
        let ms_sorted := sort_by fst keyed in
        match rev ms_sorted with
        | latest :: prev :: _ =>
            out ← measurement_emitted ms_sorted latest prev;
            Ok (sort_by_severity out)
        | _ => Raise IndexError
        end
    end.

End MeasurementAlerts.

(* ===================================================================== *)
(** ** labs_importer.py *)
(* ===================================================================== *)

(** ["\n".join(l)] *)
Fixpoint join_newline (l : list str) : str :=
  match l with
  | [] => []
  | [x] => x
  | x :: l' => x ++ 10 :: join_newline l'
  end.

(** The text a page contributes: [page.extract_text() or ""], kept when it
    is not empty.  A page is given by what [extract_text] answered, [None]
    when it answered [None] or raised. *)
Definition page_part (page : option str) : option str :=
  match page with
  | Some (c :: t) => Some (c :: t)
  | _ => None
  end.

(** [extract_text_from_pdf], on the pages the reader found. *)
Definition extract_text_from_pdf (pages : list (option str)) : str :=
  join_newline (omap page_part pages).

(** [parse_enabiz_pdf] *)
Definition parse_enabiz_pdf `{UnicodeData} (pages : list (option str))
  : list LabRow :=
  parse_enabiz_text (extract_text_from_pdf pages).

(* ===================================================================== *)
(** ** settings_service.py: the key-value settings

    The table [app_meta] (a primary key and a text that is never null) is a
    finite map; a method that writes returns the new table. *)
(* ===================================================================== *)

Definition _get_meta (meta : gmap (list N) (list N)) (key : str) : option str :=
  meta !! key.

(** The insert that updates the value on a key conflict. *)
Definition _set_meta (meta : gmap (list N) (list N)) (key value : str)
  : gmap (list N) (list N) :=
  <[key := value]> meta.

(** [get_value]: [self._get_meta(key) or default], so an empty text reads
    as the default. *)
Definition get_value (meta : gmap (list N) (list N)) (key : str)
  (default : option str) : option str :=
  match _get_meta meta key with
  | Some (c :: v) => Some (c :: v)
  | _ => default
  end.

Definition set_value (meta : gmap (list N) (list N)) (key value : str)
  : gmap (list N) (list N) :=
  _set_meta meta key value.

(** [set_default]: writes only when no row has the key. *)
Definition set_default (meta : gmap (list N) (list N)) (key value : str)
  : gmap (list N) (list N) :=
  match meta !! key with
  | None => _set_meta meta key value
  | Some _ => meta
  end.

(* ===================================================================== *)
(** ** Vocabulary of the properties *)
(* ===================================================================== *)

(** [matches r s c]: the text [s] is in the language of [r], the groups
    closing in the order of [c] read from its end. *)
Inductive matches : regex -> str -> caps -> Prop :=
| M_eps : matches Eps [] []
| M_cls p c : p c = true -> matches (Cls p) [c] []
| M_cat r1 r2 s1 s2 c1 c2 :
    matches r1 s1 c1 -> matches r2 s2 c2 ->
    matches (Cat r1 r2) (s1 ++ s2) (c2 ++ c1)
| M_alt_l r1 r2 s c : matches r1 s c -> matches (Alt r1 r2) s c
| M_alt_r r1 r2 s c : matches r2 s c -> matches (Alt r1 r2) s c
| M_opt_some r s c : matches r s c -> matches (Opt r) s c
| M_opt_none r : matches (Opt r) [] []
| M_star p s : Forall (fun c => p c = true) s -> matches (Star p) s []
| M_group g r s c : matches r s c -> matches (Group g r) s ((g, s) :: c).

(** A text that neither begins nor ends with white space. *)
Definition ends_solid (s : str) : Prop :=
  (exists h t, s = h :: t /\ is_space h = false)
  /\ (exists pre z, s = pre ++ [z] /\ is_space z = false).

Section Shapes.
Context `{UnicodeData}.

(** The text of a number: a sign or none, digits, and maybe a separator
    with digits again. *)
Definition number_shape (sep : char -> bool) (t : str) : Prop :=
  exists sgn d ds frac,
    t = sgn ++ (d :: ds) ++ frac /\
    (sgn = [] \/ sgn = [45] \/ sgn = [43]) /\
    Forall (fun c => is_digit c = true) (d :: ds) /\
    (frac = [] \/
     exists p e es, frac = p :: e :: es /\ sep p = true
                    /\ Forall (fun c => is_digit c = true) (e :: es)).

(** A number without sign: digits, and maybe a point or comma with digits
    again. *)
Definition unsigned_number (t : str) : Prop :=
  exists d ds frac,
    t = (d :: ds) ++ frac /\
    Forall (fun c => is_digit c = true) (d :: ds) /\
    (frac = [] \/
     exists p e es, frac = p :: e :: es /\ is_dot_comma p = true
                    /\ Forall (fun c => is_digit c = true) (e :: es)).

(** A text at whose head no number can go on: it is empty or begins with
    a character that is neither a digit nor a point or comma. *)
Definition stops (rest : str) : Prop :=
  match rest with
  | [] => True
  | c :: _ => is_digit c = false /\ is_dot_comma c = false
  end.

(** The three patterns of the reference. *)
Definition ref_pattern (r : regex) : Prop :=
  r = _RE_RANGE \/ r = _RE_LT \/ r = _RE_GT.

End Shapes.

(** Two characters that are equal or the two cases of one ASCII letter. *)
Definition ascii_case_eq (a b : char) : Prop :=
  a = b \/ (65 <= a /\ a <= 90 /\ b = a + 32)
  \/ (65 <= b /\ b <= 90 /\ a = b + 32).

(** A text whose only white space is single spaces; [after_space] says that
    the character before the text is a space. *)
Fixpoint squeezed (after_space : bool) (s : str) : bool :=
  match s with
  | [] => true
  | c :: s' =>
      if c =? 32 then negb after_space && squeezed true s'
      else negb (is_space c) && squeezed false s'
  end.

(** The invariants of a row the extractor builds. *)
Definition row_consistent `{UnicodeData} (row : LabRow) : Prop :=
  result_value row = _to_float (result_text row)
  /\ ref row = parse_ref (ref_text row)
  /\ status row
     = classify_value (result_value row) (ref row) default_borderline_ratio
  /\ (2 <= length (test_name row))%nat
  /\ strip (test_name row) = test_name row
  /\ strip (unit row) = unit row
  /\ strip (ref_text row) = ref_text row
  /\ is_Some (fullmatch _RE_NUM (result_text row)).

(** The row the rules see under a key: the first row of the key that has
    a value, or the first row of the key when none has. *)
Definition has_value (r : lab_result) : bool :=
  negb (is_none (row_result_value r)).

Definition has_key `{UnicodeData} (k : str) (r : lab_result) : bool :=
  bool_decide (norm_key (row_test_name r) = k).

Definition pick_row `{UnicodeData} (k : str) (rows : list lab_result)
  : option lab_result :=
  match List.find (fun r => has_key k r && has_value r) rows with
  | Some r => Some r
  | None => List.find (has_key k) rows
  end.

(** The place of a float that is not NaN in the order of the comparisons:
    its class (the infinities, the negative and the positive finite
    numbers, the zeros), then exponent and mantissa. *)
Definition rank (x : float) : option (Z * Z * Z) :=
  match x with
  | S754_nan => None
  | S754_infinity true => Some (-2, 0, 0)%Z
  | S754_infinity false => Some (2, 0, 0)%Z
  | S754_zero _ => Some (0, 0, 0)%Z
  | S754_finite true m e => Some (-1, - e, Zneg m)%Z
  | S754_finite false m e => Some (1, e, Zpos m)%Z
  end.

Definition lex_lt (a b : Z * Z * Z) : Prop :=
  (a.1.1 < b.1.1
   \/ (a.1.1 = b.1.1
       /\ (a.1.2 < b.1.2 \/ (a.1.2 = b.1.2 /\ a.2 < b.2))))%Z.

Definition lex_le (a b : Z * Z * Z) : Prop :=
  (a.1.1 < b.1.1
   \/ (a.1.1 = b.1.1
       /\ (a.1.2 < b.1.2 \/ (a.1.2 = b.1.2 /\ a.2 <= b.2))))%Z.

Definition cut_high (lo hi r : float) : float :=
  fsub hi (fmul (py_max (fsub hi lo) 0.000001) r).







(** A one-sided reference, its text left out. *)
Definition less_than (hi : float) : RefRange :=
  mkRefRange MLt None (Some hi) [].

(** At most one insight, and not a Critical one. *)
Definition mild (l : list Insight) : Prop :=
  Forall (fun i => severity i <> Critical) l /\ (length l <= 1)%nat.

(** A row of a test that some rule looks up. *)
Definition recognized `{UnicodeData} (r : lab_result) : bool :=
  existsb (fun k => has_key (lit k) r) rule_keys.

(* ===================================================================== *)
(** * Properties *)
(* ===================================================================== *)

(** ** The order of the comparisons *)

Lemma compare_rank (x y : float) (a b : Z * Z * Z) :
  rank x = Some a -> rank y = Some b ->
  SFcompare x y = Some Lt /\ lex_lt a b
  \/ SFcompare x y = Some Eq /\ a = b
  \/ SFcompare x y = Some Gt /\ lex_lt b a.
Proof.
  unfold lex_lt.
  destruct x as [sx|[]| |[] mx ex], y as [sy|[]| |[] my ey];
    cbn; intros [= <-] [= <-]; cbn; try (intuition lia).
  - destruct (Z.compare_spec ex ey) as [->| |]; try (intuition lia).
    change (Pos.compare_cont Eq mx my) with (Pos.compare mx my).
    destruct (Pos.compare_spec mx my) as [->| |]; cbn; intuition lia.
  - destruct (Z.compare_spec ex ey) as [->| |]; try (intuition lia).
    change (Pos.compare_cont Eq mx my) with (Pos.compare mx my).
    destruct (Pos.compare_spec mx my) as [->| |]; cbn; intuition lia.
Qed.

Lemma rank_is_nan (x : float) : rank x = None <-> is_nan x = true.
Proof. destruct x as [|[]| |[]]; cbn; split; congruence. Qed.

Lemma rank_not_nan (x : float) : is_nan x = false -> is_Some (rank x).
Proof. destruct x as [|[]| |[]]; cbn; intros E; eauto; discriminate. Qed.

Lemma compare_nan (x y : float) :
  rank x = None \/ rank y = None -> SFcompare x y = None.
Proof.
  destruct x as [|[]| |[]], y as [|[]| |[]]; cbn; intros [E|E];
    try discriminate; reflexivity.
Qed.

Lemma flt_lex (x y : float) :
  flt x y = true <->
  exists a b, rank x = Some a /\ rank y = Some b /\ lex_lt a b.
Proof.
  unfold flt, SFltb. split.
  - destruct (rank x) as [a|] eqn:Ex; [|rewrite compare_nan by auto; discriminate].
    destruct (rank y) as [b|] eqn:Ey; [|rewrite compare_nan by auto; discriminate].
    destruct (compare_rank x y a b Ex Ey) as [[-> L]|[[-> _]|[-> _]]];
      try discriminate.
    intros _. eauto.
  - intros (a & b & Ex & Ey & L).
    destruct (compare_rank x y a b Ex Ey) as [[-> _]|[[-> E]|[-> G]]];
      [reflexivity| |]; exfalso; revert L; [subst b|revert G];
      unfold lex_lt; lia.
Qed.

Lemma fle_lex (x y : float) :
  fle x y = true <->
  exists a b, rank x = Some a /\ rank y = Some b /\ lex_le a b.
Proof.
  unfold fle, SFleb. split.
  - destruct (rank x) as [a|] eqn:Ex; [|rewrite compare_nan by auto; discriminate].
    destruct (rank y) as [b|] eqn:Ey; [|rewrite compare_nan by auto; discriminate].
    destruct (compare_rank x y a b Ex Ey) as [[-> L]|[[-> E]|[-> _]]];
      try discriminate; intros _; exists a, b; repeat split; trivial.
    + revert L. unfold lex_lt, lex_le. lia.
    + subst b. unfold lex_le. lia.
  - intros (a & b & Ex & Ey & L).
    destruct (compare_rank x y a b Ex Ey) as [[-> _]|[[-> E]|[-> G]]];
      [reflexivity|reflexivity|].
    exfalso. revert L G. unfold lex_lt, lex_le. lia.
Qed.

Lemma flt_false_lex (x y : float) (a b : Z * Z * Z) :
  rank x = Some a -> rank y = Some b -> flt x y = false -> lex_le b a.
Proof.
  intros Ex Ey. unfold flt, SFltb.
  destruct (compare_rank x y a b Ex Ey) as [[-> _]|[[-> E]|[-> G]]];
    [discriminate| |]; intros _.
  - subst b. unfold lex_le. lia.
  - revert G. unfold lex_lt, lex_le. lia.
Qed.

Lemma fle_false_lex (x y : float) (a b : Z * Z * Z) :
  rank x = Some a -> rank y = Some b -> fle x y = false -> lex_lt b a.
Proof.
  intros Ex Ey. unfold fle, SFleb.
  destruct (compare_rank x y a b Ex Ey) as [[-> _]|[[-> E]|[-> G]]];
    [discriminate|discriminate|]; intros _. exact G.
Qed.

(** Order facts between floats, from the comparisons in the context: the
    true ones give the ranks of their two sides, the false ones between
    ranked floats the opposite order. *)
Ltac rank_facts :=
  repeat match goal with
  | H : is_nan ?x = false |- _ =>
      let a := fresh "a" in let Ha := fresh "Ra" in
      destruct (rank_not_nan x H) as [a Ha]; clear H
  end;
  repeat match goal with
  | H : flt ?x ?y = true |- _ =>
      apply flt_lex in H;
      let a := fresh "a" in let b := fresh "b" in
      let Ha := fresh "Ra" in let Hb := fresh "Rb" in
      destruct H as (a & b & Ha & Hb & H)
  | H : fle ?x ?y = true |- _ =>
      apply fle_lex in H;
      let a := fresh "a" in let b := fresh "b" in
      let Ha := fresh "Ra" in let Hb := fresh "Rb" in
      destruct H as (a & b & Ha & Hb & H)
  end;
  repeat match goal with
  | H1 : rank ?x = Some ?a, H2 : rank ?x = Some ?b |- _ =>
      assert (b = a) by congruence; subst b; clear H2
  end;
  repeat match goal with
  | H : flt ?x ?y = false, Hx : rank ?x = Some ?a, Hy : rank ?y = Some ?b |- _ =>
      apply (flt_false_lex x y a b Hx Hy) in H
  | H : fle ?x ?y = false, Hx : rank ?x = Some ?a, Hy : rank ?y = Some ?b |- _ =>
      apply (fle_false_lex x y a b Hx Hy) in H
  end.

Ltac f_order :=
  rank_facts; unfold lex_lt, lex_le in *; first [lia | congruence].


Lemma flt_fle_trans (x y z : float) :
  flt x y = true -> fle y z = true -> flt x z = true.
Proof.
  intros A B. rank_facts. apply flt_lex. do 2 eexists.
  repeat split; [eassumption..|]. unfold lex_lt, lex_le in *. lia.
Qed.

Lemma fle_flt_trans (x y z : float) :
  fle x y = true -> flt y z = true -> flt x z = true.
Proof.
  intros A B. rank_facts. apply flt_lex. do 2 eexists.
  repeat split; [eassumption..|]. unfold lex_lt, lex_le in *. lia.
Qed.

Lemma flt_not_fle (x y : float) : flt x y = true -> fle y x = false.
Proof.
  intros A. destruct (fle y x) eqn:B; [|reflexivity]. exfalso. f_order.
Qed.


Lemma fle_not_nan (x y : float) :
  fle x y = true -> is_nan x = false /\ is_nan y = false.
Proof.
  intros A. rank_facts.
  split; [destruct (is_nan x) eqn:E | destruct (is_nan y) eqn:E];
    trivial; apply rank_is_nan in E; congruence.
Qed.

(** ** The float of an integer *)

Section FloatOfInt.
Local Open Scope Z_scope.

Lemma digits2_pos_lower (p : positive) :
  2 ^ (Zpos (digits2_pos p) - 1) <= Zpos p.
Proof.
  induction p as [p IH|p IH|]; cbn [digits2_pos].
  - rewrite Pos2Z.inj_succ. replace (Z.succ (Zpos (digits2_pos p)) - 1)
      with (Z.succ (Zpos (digits2_pos p) - 1)) by lia.
    rewrite Z.pow_succ_r by lia. lia.
  - rewrite Pos2Z.inj_succ. replace (Z.succ (Zpos (digits2_pos p)) - 1)
      with (Z.succ (Zpos (digits2_pos p) - 1)) by lia.
    rewrite Z.pow_succ_r by lia. lia.
  - cbn. lia.
Qed.

Lemma shr_1_m (r : shr_record) :
  0 <= shr_m r -> shr_m (shr_1 r) = shr_m r / 2.
Proof.
  destruct r as [m r s]. cbn [shr_m]. intros P. unfold shr_1.
  destruct m as [|[p|p|]|p]; cbn [shr_m]; try lia.
  - reflexivity.
  - rewrite Pos2Z.inj_xI. apply Z.div_unique with 1; lia.
  - rewrite Pos2Z.inj_xO. apply Z.div_unique with 0; lia.
  - reflexivity.
Qed.

Lemma iter_shr_1_m (k : positive) :
  forall r, 0 <= shr_m r ->
    shr_m (SpecFloat.iter_pos shr_1 k r) = shr_m r / 2 ^ Zpos k.
Proof.
  induction k as [k IH|k IH|]; intros r P; cbn [SpecFloat.iter_pos].
  - assert (P1 : 0 <= shr_m (shr_1 r)).
    { rewrite shr_1_m by trivial. apply Z.div_pos; lia. }
    assert (P2 : 0 <= shr_m (SpecFloat.iter_pos shr_1 k (shr_1 r))).
    { rewrite IH by trivial. apply Z.div_pos; lia. }
    rewrite IH, IH, shr_1_m by trivial.
    rewrite !Z.div_div by lia. f_equal.
    rewrite Pos2Z.inj_xI, <- !Z.pow_add_r, <- Z.pow_succ_r by lia.
    f_equal. lia.
  - assert (P2 : 0 <= shr_m (SpecFloat.iter_pos shr_1 k r)).
    { rewrite IH by trivial. apply Z.div_pos; lia. }
    rewrite IH, IH by trivial. rewrite Z.div_div by lia. f_equal.
    rewrite Pos2Z.inj_xO, <- Z.pow_add_r by lia. f_equal. lia.
  - rewrite shr_1_m by trivial. reflexivity.
Qed.

Lemma shr_fexp_positive (p : positive) (e : Z) (l : location) :
  -1074 <= e ->
  exists r' e' p', shr_fexp 53 1024 (Zpos p) e l = (r', e')
                   /\ shr_m r' = Zpos p' /\ -1074 <= e'.
Proof.
  intros E. unfold shr_fexp, shr.
  set (n := fexp 53 1024 (Zdigits2 (Zpos p) + e) - e).
  assert (B : n < Zpos (digits2_pos p)).
  { subst n. unfold fexp, emin. cbn [Zdigits2]. lia. }
  assert (M : shr_m (shr_record_of_loc (Zpos p) l) = Zpos p).
  { destruct l as [|[]]; reflexivity. }
  destruct n as [|k|k] eqn:En.
  - do 3 eexists. split; [reflexivity|]. split; [exact M|]. exact E.
  - pose proof (iter_shr_1_m k (shr_record_of_loc (Zpos p) l)) as I.
    rewrite M in I. specialize (I ltac:(lia)).
    assert (Q : 1 <= Zpos p / 2 ^ Zpos k).
    { apply Z.div_le_lower_bound; [lia|].
      pose proof (digits2_pos_lower p).
      assert (2 ^ Zpos k <= 2 ^ (Zpos (digits2_pos p) - 1))
        by (apply Z.pow_le_mono_r; lia).
      lia. }
    destruct (Zpos p / 2 ^ Zpos k) as [|q|q] eqn:Eq; try lia.
    do 3 eexists. split; [reflexivity|]. split; [exact I|]. lia.
  - do 3 eexists. split; [reflexivity|]. split; [exact M|]. exact E.
Qed.

Lemma binary_round_aux_nonzero (s : bool) (p : positive) (e : Z) (l : location) :
  -1074 <= e -> is_zero (binary_round_aux 53 1024 s (Zpos p) e l) = false.
Proof.
  intros E. unfold binary_round_aux.
  destruct (shr_fexp_positive p e l E) as (r1 & e1 & p1 & -> & M1 & E1).
  rewrite M1.
  assert (R : exists p2, round_nearest_even (Zpos p1) (loc_of_shr_record r1)
                         = Zpos p2).
  { unfold round_nearest_even.
    destruct (loc_of_shr_record r1) as [|[]];
      try destruct (Z.even (Zpos p1)); eexists; reflexivity. }
  destruct R as [p2 ->].
  destruct (shr_fexp_positive p2 e1 loc_Exact E1) as (r3 & e3 & p3 & -> & M3 & _).
  rewrite M3. destruct (e3 <=? 1024 - 53); reflexivity.
Qed.

Lemma float_of_int_nonzero (z : Z) : z <> 0 -> is_zero (float_of_int z) = false.
Proof.
  intros NZ. unfold float_of_int, binary_normalize, binary_round.
  destruct z as [|p|p]; [contradiction| |].
  - destruct (shl_align p 0 _) as [mz ez] eqn:A.
    apply binary_round_aux_nonzero.
    unfold shl_align in A. destruct (_ - 0) eqn:D; inversion A; subst; try lia.
    unfold fexp, emin. lia.
  - destruct (shl_align p 0 _) as [mz ez] eqn:A.
    apply binary_round_aux_nonzero.
    unfold shl_align in A. destruct (_ - 0) eqn:D; inversion A; subst; try lia.
    unfold fexp, emin. lia.
Qed.

End FloatOfInt.

(** Case analysis on the comparisons of the goal. *)
Ltac f_cases :=
  repeat match goal with
  | |- context [flt ?a ?b] => destruct (flt a b)
  | |- context [fle ?a ?b] => destruct (fle a b)
  end.


(** ** The bands of [classify_value] on a range *)






(** The cut points are rounded: on the range 0..2.2 at the ratio 0.05 the
    second cut point is the float above 2.09, and 2.09 is Normal. *)
Lemma classify_value_rounded_cut :
  classify_value (Some 2.09%b64) (range_of 0 2.2) 0.05 = Normal
  /\ flt 2.09 (cut_high 0 2.2 0.05) = true.
Proof. split; vm_compute; reflexivity. Qed.

(** ** The line extractor on concrete lines *)

(** C6.  The line "Glukoz 148 mg/dL 70 - 100" gives the row Glukoz, 148,
    mg/dL, with the range 70..100 and the status High. *)
Theorem extract_glukoz_row `{UnicodeData} :
  _extract_row_from_line (lit "Glukoz 148 mg/dL 70 - 100") =
  Some (mkLabRow (lit "Glukoz") (lit "148") (Some 148%b64) (lit "mg/dL")
          (lit "70 - 100")
          (mkRefRange MRange (Some 70%b64) (Some 100%b64) (lit "70 - 100"))
          High).
Proof. vm_compute. reflexivity. Qed.

(** C1, the code at a line with two fragments.  In
    "HDL 28 mg/dL >40 35 - 55" the range pattern matches at position 17 and
    the greater-than pattern at position 13; the loops leave the match at
    13 in [ref_match], which is not the rightmost one, and the reference
    text of the row starts there. *)
Theorem select_ref_match_not_rightmost `{UnicodeData} :
  let raw := lit "HDL 28 mg/dL >40 35 - 55" in
  map m_start (finditer _RE_RANGE raw) = [17%nat] /\
  map m_start (finditer _RE_LT raw) = [] /\
  map m_start (finditer _RE_GT raw) = [13%nat] /\
  m_start <$> select_ref_match raw = Some 13%nat /\
  ref_text <$> _extract_row_from_line raw = Some (lit ">40 35 - 55").
Proof. vm_compute. repeat split; reflexivity. Qed.

(** ** The stable sort *)

Section SortBy.
Context {A : Type} (key : A -> Z).

Let key_le (a b : A) : Prop := (key a <= key b)%Z.

Lemma insert_by_Forall (P : A -> Prop) (x : A) (l : list A) :
  P x -> Forall P l -> Forall P (insert_by key x l).
Proof.
  intros Px. induction 1 as [|y l Py Pl IH]; simpl.
  - constructor; [exact Px | constructor].
  - destruct (key x <=? key y)%Z; repeat constructor; assumption.
Qed.

Lemma insert_by_sorted (x : A) (l : list A) :
  StronglySorted key_le l -> StronglySorted key_le (insert_by key x l).
Proof.
  induction 1 as [|y l Sl IH Fy]; simpl.
  - repeat constructor.
  - destruct (key x <=? key y)%Z eqn:E.
    + apply Z.leb_le in E. constructor.
      * constructor; assumption.
      * constructor; [exact E|].
        eapply Forall_impl; [exact Fy|]. intros z Hz. unfold key_le in *. lia.
    + apply Z.leb_gt in E. constructor; [exact IH|].
      apply insert_by_Forall; [unfold key_le; lia | exact Fy].
Qed.

Lemma sort_by_sorted (l : list A) : StronglySorted key_le (sort_by key l).
Proof.
  induction l as [|x l IH]; simpl.
  - constructor.
  - apply insert_by_sorted, IH.
Qed.

Lemma insert_by_Permutation (x : A) (l : list A) : insert_by key x l ≡ₚ x :: l.
Proof.
  induction l as [|y l IH]; simpl; [reflexivity|].
  destruct (key x <=? key y)%Z; [reflexivity|].
  rewrite IH. apply Permutation_swap.
Qed.

Lemma sort_by_Permutation (l : list A) : sort_by key l ≡ₚ l.
Proof.
  induction l as [|x l IH]; simpl; [reflexivity|].
  rewrite insert_by_Permutation, IH. reflexivity.
Qed.

Lemma sort_by_length (l : list A) : length (sort_by key l) = length l.
Proof. apply Permutation_length, sort_by_Permutation. Qed.

(** Stability: the elements of one key stand in the order they had. *)
Lemma insert_by_stable (v : Z) (x : A) (l : list A) :
  filter (fun a => key a = v) (insert_by key x l)
  = filter (fun a => key a = v) (x :: l).
Proof.
  induction l as [|y l IH]; simpl; [reflexivity|].
  destruct (key x <=? key y)%Z eqn:E; [reflexivity|].
  apply Z.leb_gt in E.
  rewrite filter_cons, IH, !filter_cons.
  repeat case_decide; try reflexivity; lia.
Qed.

Lemma sort_by_stable (v : Z) (l : list A) :
  filter (fun a => key a = v) (sort_by key l) = filter (fun a => key a = v) l.
Proof.
  induction l as [|x l IH]; simpl; [reflexivity|].
  rewrite insert_by_stable, !filter_cons, IH. reflexivity.
Qed.

End SortBy.

(** ** The order of the insights *)

Lemma sev_order_inj (s t : Severity) : sev_order s = sev_order t -> s = t.
Proof. destruct s, t; simpl; intros E; try reflexivity; discriminate. Qed.

Lemma of_severity_by_rank (s : Severity) (l : list Insight) :
  of_severity s l = filter (fun i => sev_order (severity i) = sev_order s) l.
Proof.
  unfold of_severity. apply list_filter_iff. intros i. split.
  - intros ->. reflexivity.
  - apply sev_order_inj.
Qed.

Lemma sort_by_severity_sorted (l : list Insight) :
  StronglySorted sev_le (sort_by_severity l).
Proof. apply (sort_by_sorted (fun i => sev_order (severity i))). Qed.

Lemma sort_by_severity_stable (s : Severity) (l : list Insight) :
  of_severity s (sort_by_severity l) = of_severity s l.
Proof.
  rewrite !of_severity_by_rank. unfold sort_by_severity.
  apply (sort_by_stable (fun i => sev_order (severity i))).
Qed.

Lemma measurement_alerts_sorts `{UnicodeData} (th : gmap string float)
  (ms : list Measurement) (out : list Insight) :
  measurement_alerts th ms = Ok out ->
  exists emitted,
    measurement_out th ms = Ok emitted /\ out = sort_by_severity emitted.
Proof.
  unfold measurement_alerts, measurement_out.
  destruct (length _ <? 2)%nat.
  - intros [= <-]. exists [need_more_data]. split; reflexivity.
  - destruct (date_all _) as [keyed|]; [|discriminate].
    destruct (rev (sort_by fst keyed)) as [|latest [|prev rest]];
      try discriminate.
    destruct (measurement_emitted _ _ _ _) as [emitted|e]; [|discriminate].
    intros [= <-]. exists emitted. split; reflexivity.
Qed.

(** C5.  The lists of [lab_insights] and of [measurement_alerts] are sorted
    by severity rank, Critical before Warn before Info (every insight ranks
    no higher than all that follow it), and the sort is stable: the insights
    of each severity are those the rules emitted, in the order they were
    emitted. *)
Theorem insights_sorted_stable `{UnicodeData} (th : gmap string float) :
  (forall rows : list lab_result,
     StronglySorted sev_le (lab_insights th rows) /\
     forall s, of_severity s (lab_insights th rows)
               = of_severity s (lab_emitted th rows)) /\
  (forall (ms : list Measurement) (out : list Insight),
     measurement_alerts th ms = Ok out ->
     StronglySorted sev_le out /\
     exists emitted,
       measurement_out th ms = Ok emitted /\
       forall s, of_severity s out = of_severity s emitted).
Proof.
  split.
  - intros rows. unfold lab_insights. split.
    + apply sort_by_severity_sorted.
    + intros s. apply sort_by_severity_stable.
  - intros ms out E.
    destruct (measurement_alerts_sorts th ms out E) as (emitted & Eo & ->).
    split; [apply sort_by_severity_sorted|].
    exists emitted. split; [exact Eo|].
    intros s. apply sort_by_severity_stable.
Qed.

(** ** The measurement alerts are never empty *)

Lemma fdiv_nonzero (x y : float) :
  is_zero y = false -> fdiv x y = Ok (SFdiv 53 1024 x y).
Proof. unfold fdiv. intros ->. reflexivity. Qed.

Lemma days_between_nonzero (latest prev : dated) :
  days_between latest prev <> 0%Z.
Proof.
  unfold days_between.
  destruct (fst latest - fst prev =? 0)%Z eqn:E; [lia|].
  apply Z.eqb_neq, E.
Qed.

(** The division by the days never raises: the number of days is not 0,
    and neither is its float. *)
Lemma weight_change_rule_returns (th : gmap string float)
  (latest prev : dated) :
  exists l, weight_change_rule th latest prev = Ok l.
Proof.
  unfold weight_change_rule.
  destruct (weight_kg (snd latest)) as [wl|]; [|eauto].
  destruct (weight_kg (snd prev)) as [wp|]; [|eauto].
  destruct (truthy (Some wl) && truthy (Some wp)); [|eauto].
  rewrite fdiv_nonzero
    by (apply float_of_int_nonzero, days_between_nonzero).
  cbn. eauto.
Qed.

Lemma bmi_raises (m : Measurement) (e : exn) :
  bmi m = Raise e -> e = ZeroDivisionError.
Proof.
  unfold bmi, fdiv.
  destruct (height_cm m) as [h|]; [|discriminate].
  destruct (weight_kg m) as [w|]; [|discriminate].
  destruct (negb _ || negb _); [discriminate|]. cbn.
  destruct (fle _ _); [discriminate|].
  destruct (is_zero _); cbn; [|discriminate]. congruence.
Qed.

(** What is emitted when the rules have run: the body mass index of the
    latest point is the one computation that can raise. *)
Lemma measurement_emitted_cases (th : gmap string float)
  (ms_sorted : list dated) (latest prev : dated) :
  (bmi (snd latest) = Raise ZeroDivisionError
   /\ measurement_emitted th ms_sorted latest prev = Raise ZeroDivisionError)
  \/ (exists rules out,
        measurement_rules th ms_sorted latest prev = Ok rules
        /\ measurement_emitted th ms_sorted latest prev = Ok out
        /\ out <> [] /\ (rules = [] -> out = [no_trend_risk])).
Proof.
  unfold measurement_emitted, measurement_rules, bmi_rule.
  destruct (weight_change_rule_returns th latest prev) as [change ->].
  cbn. destruct (bmi (snd latest)) as [b|e] eqn:B.
  - right. cbn. do 2 eexists. split; [reflexivity|]. split; [reflexivity|].
    split.
    + destruct (_ ++ _); discriminate.
    + intros ->. reflexivity.
  - left. rewrite (bmi_raises _ _ B). split; reflexivity.
Qed.

Lemma sort_by_severity_nonempty (l : list Insight) :
  l <> [] -> sort_by_severity l <> [].
Proof.
  intros N E. apply N, length_zero_iff_nil.
  rewrite <- (sort_by_length (fun i => sev_order (severity i)) l).
  unfold sort_by_severity in E. rewrite E. reflexivity.
Qed.


Lemma two_latest {A} (l : list A) :
  (2 <= length l)%nat -> exists latest prev rest, rev l = latest :: prev :: rest.
Proof.
  intros L. rewrite <- length_rev in L.
  destruct (rev l) as [|a [|b r]]; simpl in L; try lia. eauto.
Qed.


(** ** The lookup table of [lab_insights] *)

Lemma lit_inj (a b : string) : lit a = lit b -> a = b.
Proof.
  revert b. induction a as [|x a IH]; intros [|y b]; simpl; try discriminate.
  - reflexivity.
  - intros [= E1 E2]. f_equal; [|apply IH, E2].
    rewrite <- (ascii_N_embedding x), <- (ascii_N_embedding y), E1. reflexivity.
Qed.

Section ByKey.
Context `{UnicodeData}.

Lemma by_key_step_lookup (acc : gmap str lab_result) (x : lab_result)
  (k : str) (r : lab_result) :
  by_key_step acc x !! k = Some r ->
  acc !! k = Some r \/ (r = x /\ norm_key (row_test_name x) = k).
Proof.
  unfold by_key_step.
  destruct (acc !! norm_key (row_test_name x)) as [cur|] eqn:E.
  - destruct (_ && _); [|auto].
    destruct (decide (norm_key (row_test_name x) = k)) as [<-|N].
    + rewrite lookup_insert_eq. intros [= <-]. auto.
    + rewrite lookup_insert_ne by exact N. auto.
  - destruct (decide (norm_key (row_test_name x) = k)) as [<-|N].
    + rewrite lookup_insert_eq. intros [= <-]. auto.
    + rewrite lookup_insert_ne by exact N. auto.
Qed.

Lemma by_key_step_keeps (acc : gmap str lab_result) (x : lab_result) (k : str) :
  is_Some (acc !! k) -> is_Some (by_key_step acc x !! k).
Proof.
  intros S. unfold by_key_step.
  destruct (acc !! norm_key (row_test_name x)) as [cur|] eqn:E.
  - destruct (_ && _); [|exact S].
    destruct (decide (norm_key (row_test_name x) = k)) as [<-|N].
    + rewrite lookup_insert_eq. eauto.
    + rewrite lookup_insert_ne by exact N. exact S.
  - destruct (decide (norm_key (row_test_name x) = k)) as [<-|N].
    + rewrite lookup_insert_eq. eauto.
    + rewrite lookup_insert_ne by exact N. exact S.
Qed.

Lemma by_key_step_enters (acc : gmap str lab_result) (x : lab_result) :
  is_Some (by_key_step acc x !! norm_key (row_test_name x)).
Proof.
  unfold by_key_step.
  destruct (acc !! norm_key (row_test_name x)) as [cur|] eqn:E.
  - destruct (_ && _).
    + rewrite lookup_insert_eq. eauto.
    + rewrite E. eauto.
  - rewrite lookup_insert_eq. eauto.
Qed.

(** A row kept under a key is a row of the input with that key. *)
Lemma fold_by_key_lookup (rows : list lab_result) (acc : gmap str lab_result)
  (k : str) (r : lab_result) :
  fold_left by_key_step rows acc !! k = Some r ->
  acc !! k = Some r \/ (r ∈ rows /\ norm_key (row_test_name r) = k).
Proof.
  revert acc. induction rows as [|x rows IH]; simpl; intros acc E; [auto|].
  destruct (IH _ E) as [E1|[I K]].
  - destruct (by_key_step_lookup _ _ _ _ E1) as [E2|[-> K]]; [auto|].
    right. split; [constructor | exact K].
  - right. split; [constructor; exact I | exact K].
Qed.

Lemma fold_by_key_keeps (rows : list lab_result) (acc : gmap str lab_result)
  (k : str) :
  is_Some (acc !! k) -> is_Some (fold_left by_key_step rows acc !! k).
Proof.
  revert acc. induction rows as [|x rows IH]; simpl; intros acc S; [exact S|].
  apply IH, by_key_step_keeps, S.
Qed.

(** Every key of the input has a row in the table. *)
Lemma fold_by_key_enters (rows : list lab_result) (acc : gmap str lab_result)
  (r : lab_result) :
  r ∈ rows ->
  is_Some (fold_left by_key_step rows acc !! norm_key (row_test_name r)).
Proof.
  revert acc. induction rows as [|x rows IH]; intros acc I.
  - apply elem_of_nil in I. destruct I.
  - cbn [fold_left]. apply elem_of_cons in I as [->|I].
    + apply fold_by_key_keeps, by_key_step_enters.
    + apply IH, I.
Qed.

End ByKey.

(** ** A report whose only recognized test is HbA1c *)

Section Hba1cOnly.
Context `{UnicodeData}.
Variable rows : list lab_result.
Variable v : float.

Hypothesis has_hba1c :
  exists r, r ∈ rows /\ norm_key (row_test_name r) = lit "hba1c".
Hypothesis only_hba1c :
  Forall (fun r => (norm_key (row_test_name r) = lit "hba1c"
                    /\ row_result_value r = Some v)
                   \/ unrecognized r) rows.

Lemma hba1c_in_rule_keys : "hba1c" ∈ rule_keys.
Proof. apply list_elem_of_In. simpl. tauto. Qed.

Lemma hba1c_value : getv (build_by_key rows) "hba1c" = Some v.
Proof.
  destruct has_hba1c as (r0 & I0 & K0).
  pose proof (fold_by_key_enters rows ∅ r0 I0) as [r E].
  rewrite K0 in E. unfold getv, build_by_key. rewrite E. cbn [mbind option_bind].
  apply fold_by_key_lookup in E as [E|[I K]].
  { rewrite lookup_empty in E. discriminate. }
  pose proof only_hba1c as O. rewrite Forall_forall in O.
  destruct (O r I) as [[_ V]|U]; [exact V|].
  exfalso. unfold unrecognized in U. rewrite Forall_forall in U.
  apply (U "hba1c"); [apply hba1c_in_rule_keys | exact K].
Qed.

Lemma other_keys_absent (k : string) :
  k ∈ rule_keys -> k <> "hba1c" -> build_by_key rows !! lit k = None.
Proof.
  intros I N. destruct (build_by_key rows !! lit k) as [r|] eqn:E; [|reflexivity].
  exfalso. apply fold_by_key_lookup in E as [E|[Ir K]].
  { rewrite lookup_empty in E. discriminate. }
  pose proof only_hba1c as O. rewrite Forall_forall in O.
  destruct (O r Ir) as [[K' _]|U].
  - apply N, lit_inj. rewrite <- K, K'. reflexivity.
  - unfold unrecognized in U. rewrite Forall_forall in U.
    apply (U k); [exact I | exact K].
Qed.

Ltac absent k :=
  rewrite (other_keys_absent k)
    by (first [apply list_elem_of_In; simpl; tauto | discriminate]).

(** Only the glycemic rule has something to look at. *)
Lemma lab_rules_hba1c_only (th : gmap string float) :
  lab_rules th (build_by_key rows) = glycemic_rule th (build_by_key rows).
Proof.
  unfold lab_rules.
  assert (E : forall l : list Insight, l = [] -> forall l', l' ++ l = l').
  { intros l -> l'. apply app_nil_r. }
  rewrite <- (app_nil_r (glycemic_rule _ _)) at 2. f_equal.
  unfold ldl_rule, hdl_rule, tg_rule, total_rule, liver_rule, thyroid_rule,
    ferritin_rule, vitd_rule, b12_rule, crp_rule, egfr_rule, kreatinin_rule,
    getv, status_of.
  absent "ldl". absent "hdl". absent "trigliserid". absent "kolesterol total".
  absent "alt". absent "ast". absent "ggt". absent "tsh". absent "ferritin".
  absent "25 oh vitamin d". absent "vitamin b12". absent "crp".
  absent "hs crp". absent "egfr". absent "kreatinin".
  reflexivity.
Qed.

Lemma lab_insights_hba1c (th : gmap string float) (i : Insight) :
  glycemic_rule th (build_by_key rows) = [i] -> lab_insights th rows = [i].
Proof.
  intros G. unfold lab_insights, lab_emitted.
  rewrite lab_rules_hba1c_only, G.
  destruct rows; reflexivity.
Qed.

End Hba1cOnly.

(** C4.  With the default thresholds, on rows whose only recognized test is
    HbA1c (every row is an HbA1c row carrying the value [v], or a row no
    rule looks at, and there is an HbA1c row), [lab_insights] returns
    exactly one insight: Critical at 7.1, Warn at 5.9, Info at 5.2, each
    with a title that begins with HbA1c. *)
Theorem lab_insights_hba1c_only `{UnicodeData}
  (rows : list lab_result) (v : float) :
  (exists r, r ∈ rows /\ norm_key (row_test_name r) = lit "hba1c") ->
  Forall (fun r => (norm_key (row_test_name r) = lit "hba1c"
                    /\ row_result_value r = Some v)
                   \/ unrecognized r) rows ->
  (v = 7.1%b64 ->
   lab_insights DEFAULT_CLINICAL_THRESHOLDS rows =
   [mkInsight Critical "HbA1c yüksek (7.10)."
      "Diyabet aralığı olabilir. Klinik doğrulama ve hekim değerlendirmesi önerilir."]) /\
  (v = 5.9%b64 ->
   lab_insights DEFAULT_CLINICAL_THRESHOLDS rows =
   [mkInsight Warn "HbA1c sınırda/yüksek (5.90)."
      "Prediyabet/insülin direnci açısından yaşam tarzı (lif, protein dengesi, aktivite, uyku) gözden geçirilebilir."]) /\
  (v = 5.2%b64 ->
   lab_insights DEFAULT_CLINICAL_THRESHOLDS rows =
   [mkInsight Info "HbA1c normal (5.20)."
      "Glikoz kontrolü iyi görünüyor; sürdürülebilir beslenme alışkanlığıyla devam."]).
Proof.
  intros Has Only.
  pose proof (hba1c_value rows v Has Only) as V.
  repeat split; intros ->;
    apply (lab_insights_hba1c rows _ Has Only);
    unfold glycemic_rule; rewrite V; vm_compute; reflexivity.
Qed.

(** ** White space at the ends *)

Lemma lstrip_head (s : str) :
  match lstrip s with
  | [] => True
  | c :: _ => is_space c = false
  end.
Proof.
  induction s as [|c s IH]; simpl; [exact I|].
  destruct (is_space c) eqn:E; [exact IH | exact E].
Qed.

Lemma lstrip_fixed (c : char) (s : str) :
  is_space c = false -> lstrip (c :: s) = c :: s.
Proof. intros E. simpl. rewrite E. reflexivity. Qed.

Lemma lstrip_rstrip (s : str) : lstrip (rstrip (lstrip s)) = rstrip (lstrip s).
Proof.
  pose proof (lstrip_head s) as Hd.
  destruct (lstrip s) as [|c y]; [reflexivity|].
  cbn [rstrip]. destruct (rstrip y).
  - rewrite Hd. apply lstrip_fixed, Hd.
  - apply lstrip_fixed, Hd.
Qed.

Lemma rstrip_idem (s : str) : rstrip (rstrip s) = rstrip s.
Proof.
  induction s as [|c s IH]; [reflexivity|].
  cbn [rstrip]. destruct (rstrip s) as [|a r] eqn:E.
  - destruct (is_space c) eqn:Ec; [reflexivity|].
    cbn [rstrip]. rewrite Ec. reflexivity.
  - cbn [rstrip] in *. rewrite IH. reflexivity.
Qed.

Lemma strip_idem (s : str) : strip (strip s) = strip s.
Proof. unfold strip. rewrite lstrip_rstrip. apply rstrip_idem. Qed.

(** ** Tidy texts: what the two substitutions of [norm_key] leave *)

Lemma alnum_bounds (c : char) :
  is_lower_alnum c = true -> 48 <= c /\ c <= 122 /\ (c < 65 \/ 90 < c).
Proof.
  unfold is_lower_alnum.
  rewrite orb_true_iff, !andb_true_iff, !N.leb_le. lia.
Qed.

Lemma alnum_not_space (c : char) :
  is_lower_alnum c = true -> is_space c = false.
Proof.
  intros A. apply alnum_bounds in A. unfold is_space.
  rewrite !orb_false_iff, !andb_false_iff, !N.leb_gt, !N.eqb_neq. lia.
Qed.

Lemma alnum_not_32 (c : char) : is_lower_alnum c = true -> (c =? 32) = false.
Proof. intros A. apply alnum_bounds in A. apply N.eqb_neq. lia. Qed.

Lemma tidy_cons (b : bool) (c : char) (s : str) :
  tidy b (c :: s) = true ->
  (c = 32 /\ b = false /\ tidy true s = true)
  \/ (is_lower_alnum c = true /\ tidy false s = true).
Proof.
  cbn [tidy]. destruct (N.eqb_spec c 32) as [->|N].
  - rewrite andb_true_iff, negb_true_iff. intros [B T]. left. auto.
  - rewrite andb_true_iff. intros [A T]. right. auto.
Qed.

Lemma tidy_alnum_cons (b : bool) (c : char) (s : str) :
  is_lower_alnum c = true -> tidy b (c :: s) = tidy false s.
Proof. intros A. cbn [tidy]. rewrite (alnum_not_32 c A), A. reflexivity. Qed.

Lemma sub_runs_tidy (inrun : bool) (s : str) :
  tidy inrun (sub_runs_space not_lower_alnum inrun s) = true.
Proof.
  revert inrun. induction s as [|c s IH]; intros inrun; [reflexivity|].
  cbn [sub_runs_space]. unfold not_lower_alnum at 1.
  destruct (is_lower_alnum c) eqn:A; cbn [negb].
  - rewrite (tidy_alnum_cons _ _ _ A). apply IH.
  - destruct inrun; [apply IH|]. cbn [tidy]. rewrite N.eqb_refl. apply IH.
Qed.

(** A substitution of runs that holds the space and no letter or digit
    leaves a tidy text as it is. *)
Lemma tidy_sub_runs (p : char -> bool) (b : bool) (s : str) :
  p 32 = true -> (forall c, is_lower_alnum c = true -> p c = false) ->
  tidy b s = true -> sub_runs_space p b s = s.
Proof.
  intros P32 Pal. revert b. induction s as [|c s IH]; intros b T; [reflexivity|].
  apply tidy_cons in T as [(-> & -> & T)|(A & T)]; cbn [sub_runs_space].
  - rewrite P32, (IH _ T). reflexivity.
  - rewrite (Pal c A), (IH _ T). reflexivity.
Qed.

Lemma lstrip_tidy (b : bool) (s : str) :
  tidy b s = true -> tidy false (lstrip s) = true.
Proof.
  revert b. induction s as [|c s IH]; intros b T; [reflexivity|].
  apply tidy_cons in T as [(-> & -> & T)|(A & T)].
  - cbn [lstrip]. replace (is_space 32) with true by reflexivity.
    apply (IH _ T).
  - rewrite (lstrip_fixed _ _ (alnum_not_space c A)), (tidy_alnum_cons _ _ _ A).
    exact T.
Qed.

Lemma rstrip_tidy (b : bool) (s : str) :
  tidy b s = true -> tidy b (rstrip s) = true.
Proof.
  revert b. induction s as [|c s IH]; intros b T; [reflexivity|].
  apply tidy_cons in T as [(-> & -> & T)|(A & T)]; cbn [rstrip];
    specialize (IH _ T).
  - destruct (rstrip s); [reflexivity|]. exact IH.
  - destruct (rstrip s).
    + rewrite (alnum_not_space c A). cbn [tidy].
      rewrite (alnum_not_32 c A), A. reflexivity.
    + rewrite (tidy_alnum_cons _ _ _ A). exact IH.
Qed.

Lemma tidy_tr_map (b : bool) (s : str) : tidy b s = true -> map tr_map s = s.
Proof.
  revert b. induction s as [|c s IH]; intros b T; [reflexivity|].
  cbn [map].
  apply tidy_cons in T as [(-> & -> & T)|(A & T)]; rewrite (IH _ T).
  - reflexivity.
  - f_equal. apply alnum_bounds in A. unfold tr_map.
    repeat match goal with
    | |- context [?x =? ?y] =>
        replace (x =? y) with false by (symmetry; apply N.eqb_neq; lia)
    end.
    reflexivity.
Qed.

Section NormKeyFacts.
Context `{UnicodeData}.

Lemma tidy_casefold (b : bool) (s : str) : tidy b s = true -> casefold s = s.
Proof.
  revert b. induction s as [|c s IH]; intros b T; [reflexivity|].
  unfold casefold in *. cbn [flat_map].
  apply tidy_cons in T as [(-> & -> & T)|(A & T)]; rewrite (IH _ T).
  - reflexivity.
  - apply alnum_bounds in A. unfold casefold_char.
    replace (c <? 128) with true by (symmetry; apply N.ltb_lt; lia).
    replace ((65 <=? c) && (c <=? 90)) with false; [reflexivity|].
    symmetry. apply andb_false_iff. rewrite !N.leb_gt. lia.
Qed.

Lemma norm_text_tidy (x : str) : tidy false (norm_text x) = true.
Proof.
  unfold norm_text, strip.
  apply rstrip_tidy, (lstrip_tidy false).
  rewrite (tidy_sub_runs is_space false);
    [apply sub_runs_tidy | reflexivity | apply alnum_not_space | apply sub_runs_tidy].
Qed.

Lemma norm_text_stripped (x : str) : strip (norm_text x) = norm_text x.
Proof. unfold norm_text. apply strip_idem. Qed.

(** A tidy text without white space at its ends is its own normal form. *)
Lemma norm_text_fixed (s : str) :
  tidy false s = true -> strip s = s -> norm_text s = s.
Proof.
  intros T S. unfold norm_text.
  rewrite S, (tidy_casefold _ _ T), (tidy_tr_map _ _ T).
  rewrite (tidy_sub_runs not_lower_alnum false s); [| reflexivity | | exact T].
  - rewrite (tidy_sub_runs is_space false s);
      [exact S | reflexivity | apply alnum_not_space | exact T].
  - intros c A. unfold not_lower_alnum. rewrite A. reflexivity.
Qed.

Lemma norm_text_idem (x : str) : norm_text (norm_text x) = norm_text x.
Proof. apply norm_text_fixed; [apply norm_text_tidy | apply norm_text_stripped]. Qed.

(** What the table answers is a key of the engine already. *)
Lemma synonyms_outputs_fixed :
  Forall (fun kv => norm_key (lit (snd kv)) = lit (snd kv)) synonyms_table.
Proof. unfold synonyms_table. repeat constructor; vm_compute; reflexivity. Qed.

Lemma synonyms_lookup (s v : str) :
  synonyms !! s = Some v -> exists kv, kv ∈ synonyms_table /\ v = lit (snd kv).
Proof.
  intros E. apply elem_of_list_to_map_2 in E.
  apply list_elem_of_fmap in E as (kv & E & I).
  exists kv. split; [exact I|]. inversion E. reflexivity.
Qed.

End NormKeyFacts.

(** C7.  [norm_key] is idempotent on every string, and every answer of the
    synonym table is a fixed point of [norm_key]. *)
Theorem norm_key_idempotent `{UnicodeData} :
  (forall x : str, norm_key (norm_key x) = norm_key x) /\
  Forall (fun kv => norm_key (lit (snd kv)) = lit (snd kv)) synonyms_table.
Proof.
  split; [|apply synonyms_outputs_fixed].
  intros x. unfold norm_key at 2 3.
  destruct (synonyms !! norm_text x) as [v|] eqn:E; cbn [default].
  - destruct (synonyms_lookup _ _ E) as (kv & I & ->).
    pose proof synonyms_outputs_fixed as F. rewrite Forall_forall in F.
    apply (F kv I).
  - unfold norm_key. rewrite norm_text_idem, E. reflexivity.
Qed.

(** ** What the matcher finds: the language of a pattern *)

Lemma star_exec_sound {A} (p : char -> bool) (s : str) (k : str -> option A)
  (x : A) :
  star_exec p s k = Some x ->
  exists s1 s2, s = s1 ++ s2 /\ Forall (fun c => p c = true) s1 /\ k s2 = Some x.
Proof.
  induction s as [|c s IH]; cbn [star_exec]; intros E.
  - exists [], []. auto.
  - destruct (p c) eqn:P.
    + destruct (star_exec p s k) as [y|] eqn:S.
      * injection E as ->. destruct (IH eq_refl) as (s1 & s2 & -> & F & K).
        exists (c :: s1), s2. repeat split; [constructor; assumption | exact K].
      * exists [], (c :: s). auto.
    + exists [], (c :: s). auto.
Qed.

Lemma take_matched (s1 s2 : str) :
  take (length (s1 ++ s2) - length s2) (s1 ++ s2) = s1.
Proof.
  rewrite length_app.
  replace (length s1 + length s2 - length s2)%nat with (length s1) by lia.
  apply take_app_length.
Qed.

(** Soundness: a success of the matcher cuts the text into a word of the
    language and the rest it handed to the continuation. *)
Lemma exec_sound {A} (r : regex) :
  forall (s : str) (cs : caps) (k : str -> caps -> option A) (x : A),
    exec r s cs k = Some x ->
    exists s1 s2 c,
      s = s1 ++ s2 /\ matches r s1 c /\ k s2 (c ++ cs) = Some x.
Proof.
  induction r as [|p|r1 IH1 r2 IH2|r1 IH1 r2 IH2|r IH|p|g r IH];
    intros s cs k x E; cbn [exec] in E.
  - exists [], s, []. repeat split; [constructor | exact E].
  - destruct s as [|c s]; [discriminate|].
    destruct (p c) eqn:P; [|discriminate].
    exists [c], s, []. repeat split; [constructor; exact P | exact E].
  - destruct (IH1 _ _ _ _ E) as (a & s' & c1 & -> & M1 & E1).
    destruct (IH2 _ _ _ _ E1) as (b & s'' & c2 & -> & M2 & E2).
    exists (a ++ b), s'', (c2 ++ c1).
    rewrite <- !app_assoc. repeat split; [constructor; assumption | exact E2].
  - destruct (exec r1 s cs k) as [y|] eqn:E1.
    + injection E as ->. destruct (IH1 _ _ _ _ E1) as (a & b & c & -> & M & K).
      exists a, b, c. repeat split; [apply M_alt_l, M | exact K].
    + destruct (IH2 _ _ _ _ E) as (a & b & c & -> & M & K).
      exists a, b, c. repeat split; [apply M_alt_r, M | exact K].
  - destruct (exec r s cs k) as [y|] eqn:E1.
    + injection E as ->. destruct (IH _ _ _ _ E1) as (a & b & c & -> & M & K).
      exists a, b, c. repeat split; [apply M_opt_some, M | exact K].
    + exists [], s, []. repeat split; [apply M_opt_none | exact E].
  - destruct (star_exec_sound _ _ _ _ E) as (a & b & -> & F & K).
    exists a, b, []. repeat split; [constructor; exact F | exact K].
  - destruct (IH _ _ _ _ E) as (a & b & c & -> & M & K).
    rewrite take_matched in K.
    exists a, b, ((g, a) :: c). repeat split; [constructor; exact M | exact K].
Qed.

Lemma star_exec_falls_back {A} (p : char -> bool) (s : str)
  (k : str -> option A) :
  is_Some (k s) -> is_Some (star_exec p s k).
Proof.
  intros S. destruct s as [|c s]; cbn [star_exec]; [exact S|].
  destruct (p c); [|exact S].
  destruct (star_exec p s k); [eauto | exact S].
Qed.

Lemma star_exec_complete {A} (p : char -> bool) (s1 s2 : str)
  (k : str -> option A) :
  Forall (fun c => p c = true) s1 -> is_Some (k s2) ->
  is_Some (star_exec p (s1 ++ s2) k).
Proof.
  intros F S. induction F as [|c s1 P F IH]; cbn [app].
  - apply star_exec_falls_back, S.
  - cbn [star_exec]. rewrite P.
    destruct IH as [y ->]. eauto.
Qed.

(** Completeness: if a word of the language stands at the head of the text
    and the continuation accepts what follows it, the matcher succeeds
    (maybe on another word). *)
Lemma exec_complete {A} (r : regex) (s1 : str) (c : caps) :
  matches r s1 c ->
  forall (s2 : str) (cs : caps) (k : str -> caps -> option A),
    (forall cs', is_Some (k s2 cs')) -> is_Some (exec r (s1 ++ s2) cs k).
Proof.
  induction 1 as [|p c P|r1 r2 a b c1 c2 M1 IH1 M2 IH2|r1 r2 a c M IH
                 |r1 r2 a c M IH|r a c M IH|r|p a F|g r a c M IH];
    intros s2 cs k K; cbn [exec].
  - apply K.
  - cbn [app]. rewrite P. apply K.
  - rewrite <- app_assoc. apply IH1. intros cs'. apply IH2, K.
  - destruct (IH s2 cs k K) as [y ->]. eauto.
  - destruct (exec r1 (a ++ s2) cs k); [eauto|]. apply IH, K.
  - destruct (IH s2 cs k K) as [y ->]. eauto.
  - cbn [app]. destruct (exec r s2 cs k); [eauto|]. apply K.
  - apply star_exec_complete; [exact F | apply K].
  - apply IH. intros cs'. apply K.
Qed.

(** *** Searching *)

Lemma search_from_sound (r : regex) (s : str) :
  forall (pos : nat) (m : match_obj),
    search_from r pos s = Some m ->
    exists a s1 b,
      s = a ++ s1 ++ b /\ matches r s1 (m_groups m)
      /\ m_start m = (pos + length a)%nat.
Proof.
  induction s as [|x s IH]; intros pos m; cbn [search_from];
    destruct (match_here _ _) as [[rest c]|] eqn:E.
  - intros [= <-]. apply exec_sound in E as (s1 & s2 & c' & Es & M & [= <- <-]).
    exists [], s1, s2. rewrite app_nil_r. repeat split; [exact Es | exact M|].
    cbn. lia.
  - discriminate.
  - intros [= <-]. apply exec_sound in E as (s1 & s2 & c' & Es & M & [= <- <-]).
    exists [], s1, s2. rewrite app_nil_r. repeat split; [exact Es | exact M|].
    cbn. lia.
  - intros S. destruct (IH _ _ S) as (a & s1 & b & -> & M & P).
    exists (x :: a), s1, b. repeat split; [exact M|]. rewrite P. cbn. lia.
Qed.

Lemma search_from_complete (r : regex) (a s1 b : str) (c : caps) :
  matches r s1 c -> forall pos, is_Some (search_from r pos (a ++ s1 ++ b)).
Proof.
  intros M. induction a as [|x a IH]; intros pos.
  - cbn [app].
    assert (S : is_Some (match_here r (s1 ++ b))).
    { apply (exec_complete r s1 c M). intros cs'. eauto. }
    destruct S as [[rest c'] S].
    destruct (s1 ++ b); cbn [search_from]; rewrite S; eauto.
  - cbn [app search_from]. destruct (match_here _ _) as [[rest c']|]; [eauto|].
    apply IH.
Qed.

(** *** Stripping keeps the matches *)

Lemma lstrip_suffix (s : str) : exists l, s = l ++ lstrip s.
Proof.
  induction s as [|c s [l IH]]; [exists []; reflexivity|].
  cbn [lstrip]. destruct (is_space c).
  - exists (c :: l). cbn. rewrite <- IH. reflexivity.
  - exists []. reflexivity.
Qed.

Lemma rstrip_prefix (s : str) : exists r, s = rstrip s ++ r.
Proof.
  induction s as [|c s [r IH]]; [exists []; reflexivity|].
  cbn [rstrip]. destruct (rstrip s) as [|a t].
  - destruct (is_space c).
    + exists (c :: s). reflexivity.
    + exists r. cbn. rewrite IH at 1. reflexivity.
  - exists r. cbn. rewrite IH at 1. reflexivity.
Qed.

Lemma strip_infix (s : str) : exists l r, s = l ++ strip s ++ r.
Proof.
  destruct (lstrip_suffix s) as [l El].
  destruct (rstrip_prefix (lstrip s)) as [r Er].
  exists l, r. unfold strip. rewrite <- Er. exact El.
Qed.

Lemma search_strip (r : regex) (s : str) :
  search r s = None -> search r (strip s) = None.
Proof.
  intros N. destruct (search r (strip s)) as [m|] eqn:E; [|reflexivity].
  exfalso. apply search_from_sound in E as (a & s1 & b & E & M & _).
  destruct (strip_infix s) as (l & t & Es).
  assert (S : is_Some (search r s)).
  { rewrite Es, E. replace (l ++ (a ++ s1 ++ b) ++ t)
      with ((l ++ a) ++ s1 ++ (b ++ t)) by (rewrite <- !app_assoc; reflexivity).
    eapply search_from_complete, M. }
  rewrite N in S. destruct S as [? S]. discriminate.
Qed.

(** ** Numbers of the patterns are numbers for [float] *)

Ltac inv_matches :=
  repeat match goal with
  | M : matches (Cat _ _) _ _ |- _ => inversion M; subst; clear M
  | M : matches (Opt _) _ _ |- _ => inversion M; subst; clear M
  | M : matches (Cls _) _ _ |- _ => inversion M; subst; clear M
  | M : matches (Star _) _ _ |- _ => inversion M; subst; clear M
  | M : matches (Group _ _) _ _ |- _ => inversion M; subst; clear M
  | M : matches (Plus _) _ _ |- _ => unfold Plus in M
  | M : matches (Lit1 _) _ _ |- _ => unfold Lit1 in M
  end.

Lemma rstrip_no_space (s : str) :
  Forall (fun c => is_space c = false) s -> rstrip s = s.
Proof.
  induction 1 as [|c s E F IH]; [reflexivity|].
  cbn [rstrip]. rewrite IH. destruct s; [rewrite E|]; reflexivity.
Qed.

Lemma strip_no_space (s : str) :
  Forall (fun c => is_space c = false) s -> strip s = s.
Proof.
  intros F. unfold strip.
  assert (L : lstrip s = s).
  { destruct F as [|c s E F]; [reflexivity|]. apply lstrip_fixed, E. }
  rewrite L. apply rstrip_no_space, F.
Qed.

Section NumberShape.
Context `{UnicodeData}.

Lemma digit_ascii (c : char) :
  is_digit c = true -> c < 128 -> 48 <= c /\ c <= 57.
Proof.
  unfold is_digit, digit_val. intros D L.
  apply N.ltb_lt in L. rewrite L in D.
  destruct ((48 <=? c) && (c <=? 57)) eqn:B; [|discriminate].
  apply andb_true_iff in B as [B1 B2].
  apply N.leb_le in B1, B2. auto.
Qed.

Lemma digit_not_space (c : char) : is_digit c = true -> is_space c = false.
Proof.
  intros D. destruct (N.ltb_spec c 128) as [L|G].
  - destruct (digit_ascii c D L). unfold is_space.
    rewrite !orb_false_iff, !andb_false_iff, !N.leb_gt, !N.eqb_neq. lia.
  - unfold is_digit, digit_val in D.
    replace (c <? 128) with false in D by (symmetry; apply N.ltb_ge; exact G).
    destruct (uni_decimal c) as [d|] eqn:U; [|discriminate].
    apply (uni_decimal_not_space c d U).
Qed.

(** A digit is none of the characters minus, plus, point, comma. *)
Lemma digit_not_punct (c : char) (x : N) :
  is_digit c = true -> x < 48 -> (c =? x) = false.
Proof.
  intros D X. apply N.eqb_neq. intros ->.
  destruct (digit_ascii x D); lia.
Qed.

Lemma span_digits_app (ds rest : str) :
  Forall (fun c => is_digit c = true) ds ->
  match rest with [] => True | c :: _ => is_digit c = false end ->
  exists vs, span_digits (ds ++ rest) = (vs, rest) /\ length vs = length ds.
Proof.
  intros F R. induction F as [|c ds D F (vs & E & L)]; cbn [app].
  - exists []. split; [|reflexivity].
    destruct rest as [|c r]; [reflexivity|]. cbn [span_digits].
    unfold is_digit in R. destruct (digit_val c); [discriminate | reflexivity].
  - cbn [span_digits]. unfold is_digit in D.
    destruct (digit_val c) as [d|]; [|discriminate].
    rewrite E. exists (d :: vs). split; [reflexivity | cbn; lia].
Qed.

Lemma number_matches (t : str) (c : caps) :
  matches NUMBER t c -> c = [] /\ number_shape is_dot_comma t.
Proof.
  unfold NUMBER, UNSIGNED. intros M. inv_matches; (split; [reflexivity|]);
    repeat match goal with
    | E : is_char _ _ = true |- _ => apply N.eqb_eq in E; subst
    end;
    unfold number_shape; do 4 eexists;
    (split; [reflexivity|]); (split; [auto|]);
    (split; [constructor; assumption|]);
    first [ left; reflexivity
          | right; do 3 eexists; split; [reflexivity|];
            split; [assumption|]; constructor; assumption ].
Qed.

End NumberShape.

Section ToFloat.
Context `{UnicodeData}.

Lemma span_digits_all (ds : str) :
  Forall (fun c => is_digit c = true) ds ->
  exists vs, span_digits ds = (vs, []) /\ length vs = length ds.
Proof.
  intros F. destruct (span_digits_app ds [] F I) as (vs & E & L).
  rewrite app_nil_r in E. eauto.
Qed.

(** [float] reads a sign or none, digits, and maybe a point with digits. *)
Lemma py_float_decimal (sgn : str) (d : char) (ds frac : str) :
  sgn = [] \/ sgn = [45] \/ sgn = [43] ->
  Forall (fun c => is_digit c = true) (d :: ds) ->
  (frac = [] \/
   exists e es, frac = 46 :: e :: es
                /\ Forall (fun c => is_digit c = true) (e :: es)) ->
  is_Some (py_float (sgn ++ (d :: ds) ++ frac)).
Proof.
  intros Sg D Fr.
  assert (NS : Forall (fun c => is_space c = false) (sgn ++ (d :: ds) ++ frac)).
  { apply Forall_app. split.
    - destruct Sg as [->|[->| ->]]; repeat constructor.
    - apply Forall_app. split.
      + eapply Forall_impl; [exact D|]. apply digit_not_space.
      + destruct Fr as [->|(e & es & -> & E)]; [constructor|].
        constructor; [reflexivity|].
        eapply Forall_impl; [exact E|]. apply digit_not_space.
  }
  assert (SP : exists v vs,
             span_digits ((d :: ds) ++ frac) = (v :: vs, frac)).
  { destruct (span_digits_app (d :: ds) frac D) as (vs & E & L).
    - destruct Fr as [->|(e & es & -> & _)]; [exact I | reflexivity].
    - destruct vs as [|v vs]; [discriminate L|]. eauto. }
  destruct SP as (v & vs & SP).
  unfold py_float. rewrite (strip_no_space _ NS).
  inversion D as [|? ? Dd Dds]; subst.
  destruct Sg as [->|[->| ->]]; cbn [app].
  - rewrite (digit_not_punct d 45 Dd), (digit_not_punct d 43 Dd) by lia.
    change (d :: ds ++ frac) with ((d :: ds) ++ frac). rewrite SP.
    destruct Fr as [->|(e & es & -> & E)]; [eauto|].
    rewrite N.eqb_refl.
    destruct (span_digits_all _ E) as (fp & -> & _). eauto.
  - rewrite N.eqb_refl.
    change (d :: ds ++ frac) with ((d :: ds) ++ frac). rewrite SP.
    destruct Fr as [->|(e & es & -> & E)]; [eauto|].
    rewrite N.eqb_refl.
    destruct (span_digits_all _ E) as (fp & -> & _). eauto.
  - replace (43 =? 45) with false by reflexivity. rewrite N.eqb_refl.
    change (d :: ds ++ frac) with ((d :: ds) ++ frac). rewrite SP.
    destruct Fr as [->|(e & es & -> & E)]; [eauto|].
    rewrite N.eqb_refl.
    destruct (span_digits_all _ E) as (fp & -> & _). eauto.
Qed.

Lemma replace_comma_digits (ds : str) :
  Forall (fun c => is_digit c = true) ds ->
  map (fun c => if c =? 44 then 46 else c) ds = ds.
Proof.
  induction 1 as [|c ds D F IH]; [reflexivity|].
  cbn [map]. rewrite IH, (digit_not_punct c 44 D) by lia. reflexivity.
Qed.

(** [_to_float] succeeds on every text the number of a pattern matched. *)
Lemma to_float_number (t : str) :
  number_shape is_dot_comma t -> is_Some (_to_float t).
Proof.
  intros (sgn & d & ds & frac & -> & Sg & D & Fr).
  unfold _to_float. rewrite !map_app, (replace_comma_digits _ D).
  replace (map _ sgn) with sgn by (destruct Sg as [->|[->| ->]]; reflexivity).
  apply py_float_decimal; [exact Sg | exact D|].
  destruct Fr as [->|(p & e & es & -> & P & E)]; [left; reflexivity|].
  right. exists e, es. split; [|exact E].
  change (p :: e :: es) with ([p] ++ e :: es).
  rewrite map_app, (replace_comma_digits _ E). cbn [map app].
  f_equal. unfold is_dot_comma in P.
  apply orb_true_iff in P as [P|P]; apply N.eqb_eq in P; subst; reflexivity.
Qed.

Lemma to_float_group (g : string) (t : str) (c : caps) :
  matches (Group g NUMBER) t c ->
  c = [(g, t)] /\ is_Some (_to_float t).
Proof.
  intros M. inversion M as [| | | | | | | |? ? ? c' M']; subst.
  apply number_matches in M' as [-> Sh].
  split; [reflexivity | apply to_float_number, Sh].
Qed.

End ToFloat.

(** ** The reference parser *)

Section ParseRef.
Context `{UnicodeData}.

Lemma range_groups (s : str) (c : caps) :
  matches _RE_RANGE s c ->
  exists t1 t2,
    c = [("high", t2); ("low", t1)]
    /\ is_Some (_to_float t1) /\ is_Some (_to_float t2).
Proof.
  unfold _RE_RANGE. intros M.
  repeat match goal with
  | M : matches (Cat _ _) _ _ |- _ => inversion M; subst; clear M
  | M : matches (Star _) _ _ |- _ => inversion M; subst; clear M
  | M : matches (Lit1 _) _ _ |- _ => inversion M; subst; clear M
  | M : matches (Group _ NUMBER) _ _ |- _ =>
      apply to_float_group in M as [-> ?]
  end.
  eexists _, _. split; [reflexivity|]. split; assumption.
Qed.

Lemma lim_groups (x : N) (s : str) (c : caps) :
  matches (Cat (Lit1 x) (Cat (Star is_space) (Group "lim" NUMBER))) s c ->
  exists t, c = [("lim", t)] /\ is_Some (_to_float t).
Proof.
  intros M.
  repeat match goal with
  | M : matches (Cat _ _) _ _ |- _ => inversion M; subst; clear M
  | M : matches (Star _) _ _ |- _ => inversion M; subst; clear M
  | M : matches (Lit1 _) _ _ |- _ => inversion M; subst; clear M
  | M : matches (Group _ NUMBER) _ _ |- _ =>
      apply to_float_group in M as [-> ?]
  end.
  eexists. split; [reflexivity | assumption].
Qed.

Lemma search_groups (r : regex) (s : str) (m : match_obj) :
  search r s = Some m -> exists s1, matches r s1 (m_groups m).
Proof.
  intros E. apply search_from_sound in E as (a & s1 & b & _ & M & _). eauto.
Qed.

(** The four shapes of an answer of [parse_ref]. *)
Lemma parse_ref_cases (ref_text : str) :
  let t := strip ref_text in
  (exists lo hi, parse_ref ref_text = mkRefRange MRange (Some lo) (Some hi) t)
  \/ (exists hi, parse_ref ref_text = mkRefRange MLt None (Some hi) t)
  \/ (exists lo, parse_ref ref_text = mkRefRange MGt (Some lo) None t)
  \/ parse_ref ref_text = mkRefRange MUnknown None None t.
Proof.
  unfold parse_ref.
  destruct (search _RE_RANGE _) as [m|] eqn:E1.
  { apply search_groups in E1 as [s1 M].
    apply range_groups in M as (t1 & t2 & G & [lo F1] & [hi F2]).
    unfold group. rewrite G. cbn. rewrite F1, F2. left. eauto. }
  destruct (search _RE_LT _) as [m|] eqn:E2.
  { apply search_groups in E2 as [s1 M].
    apply lim_groups in M as (t & G & [hi F]).
    unfold group. rewrite G. cbn. rewrite F. right. left. eauto. }
  destruct (search _RE_GT _) as [m|] eqn:E3.
  { apply search_groups in E3 as [s1 M].
    apply lim_groups in M as (t & G & [lo F]).
    unfold group. rewrite G. cbn. rewrite F. right. right. left. eauto. }
  right. right. right. reflexivity.
Qed.

Lemma parse_ref_has_bounds (ref_text : str) : mode_bounds (parse_ref ref_text).
Proof.
  unfold mode_bounds.
  destruct (parse_ref_cases ref_text)
    as [(lo & hi & ->)|[(hi & ->)|[(lo & ->)| ->]]]; cbn [mode low high];
    repeat split; eauto.
Qed.

End ParseRef.

(** C2 (as the code has it).  Every [RefRange] of [parse_ref] has the bounds
    of its mode: a range has both, a less-than has the upper one only, a
    greater-than the lower one only, an unknown none.  Nothing orders the
    two bounds of a range. *)
Theorem parse_ref_mode_bounds `{UnicodeData} (ref_text : str) :
  mode_bounds (parse_ref ref_text).
Proof.
  unfold mode_bounds.
  destruct (parse_ref_cases ref_text)
    as [(lo & hi & ->)|[(hi & ->)|[(lo & ->)| ->]]]; cbn [mode low high].
  - split; eexists; reflexivity.
  - split; [reflexivity | eexists; reflexivity].
  - split; [eexists; reflexivity | reflexivity].
  - split; reflexivity.
Qed.

(** C2 as stated fails: the text "5 - 3" parses to a range whose lower
    bound is above the upper one. *)
Lemma parse_ref_range_unordered :
  let r := parse_ref (H := ascii_only) (lit "5 - 3") in
  mode r = MRange /\ low r = Some 5%b64 /\ high r = Some 3%b64
  /\ fle 5 3 = false.
Proof. vm_compute. repeat split; reflexivity. Qed.

(** C9 (as the code has it).  [parse_ref] is a total function, and on an
    input in which none of the three patterns matches it answers Unknown,
    without bounds, with the input stripped of the white space at its two
    ends as text. *)
Theorem parse_ref_unknown `{UnicodeData} (ref_text : str) :
  search _RE_RANGE ref_text = None ->
  search _RE_LT ref_text = None ->
  search _RE_GT ref_text = None ->
  parse_ref ref_text = mkRefRange MUnknown None None (strip ref_text).
Proof.
  intros N1 N2 N3. unfold parse_ref.
  rewrite (search_strip _ _ N1), (search_strip _ _ N2), (search_strip _ _ N3).
  reflexivity.
Qed.

Lemma parse_ref_unknown_witness :
  parse_ref (H := ascii_only) (lit "  negatif ")
  = mkRefRange MUnknown None None (lit "negatif").
Proof.
  apply (parse_ref_unknown (H := ascii_only) (lit "  negatif "));
    vm_compute; reflexivity.
Defined.

(** C9 as stated fails: on " negatif" no pattern matches and the text kept
    is not the input, the leading space is gone. *)
Lemma parse_ref_unknown_text_not_input :
  let s := lit " negatif" in
  search (_RE_RANGE (H := ascii_only)) s = None /\
  search (_RE_LT (H := ascii_only)) s = None /\
  search (_RE_GT (H := ascii_only)) s = None /\
  mode (parse_ref (H := ascii_only) s) = MUnknown /\
  text (parse_ref (H := ascii_only) s) <> s.
Proof. vm_compute. repeat split; try reflexivity. discriminate. Qed.

(** ** The theorems at concrete inputs *)

Lemma lab_insights_hba1c_only_witness :
  let demir := mkLabResult (lit "Demir") (Some 80%b64) Normal in
  let hba1c v := mkLabResult (lit "HbA1c (%)") (Some v) High in
  severity <$> lab_insights (H := ascii_only) DEFAULT_CLINICAL_THRESHOLDS
                 [demir; hba1c 7.1%b64] = [Critical] /\
  severity <$> lab_insights (H := ascii_only) DEFAULT_CLINICAL_THRESHOLDS
                 [demir; hba1c 5.9%b64] = [Warn] /\
  severity <$> lab_insights (H := ascii_only) DEFAULT_CLINICAL_THRESHOLDS
                 [demir; hba1c 5.2%b64] = [Info].
Proof.
  intros demir hba1c.
  assert (Has : forall v, exists r,
             r ∈ [demir; hba1c v]
             /\ norm_key (H := ascii_only) (row_test_name r) = lit "hba1c").
  { intros v. exists (hba1c v). split; [|vm_compute; reflexivity].
    apply list_elem_of_In. simpl. auto. }
  assert (Only : forall v,
             Forall (fun r =>
               (norm_key (H := ascii_only) (row_test_name r) = lit "hba1c"
                /\ row_result_value r = Some v)
               \/ unrecognized (H := ascii_only) r) [demir; hba1c v]).
  { intros v. constructor; [|constructor; [|constructor]].
    - right. unfold unrecognized, rule_keys.
      repeat constructor; vm_compute; discriminate.
    - left. split; [vm_compute; reflexivity | reflexivity]. }
  split; [|split].
  - rewrite (proj1 (lab_insights_hba1c_only (H := ascii_only)
                      _ _ (Has _) (Only _)) eq_refl).
    reflexivity.
  - rewrite (proj1 (proj2 (lab_insights_hba1c_only (H := ascii_only)
                             _ _ (Has _) (Only _))) eq_refl).
    reflexivity.
  - rewrite (proj2 (proj2 (lab_insights_hba1c_only (H := ascii_only)
                             _ _ (Has _) (Only _))) eq_refl).
    reflexivity.
Defined.

Lemma insights_sorted_stable_witness :
  let point d w := mkMeasurement (lit d) (Some 170%b64) (Some w) None in
  let ms := [point "2024-01-15" 73%b64; point "2024-01-01" 70%b64;
             point "2023-12-01" 69%b64] in
  exists out emitted,
    measurement_alerts DEFAULT_CLINICAL_THRESHOLDS (H := ascii_only) ms = Ok out
    /\ measurement_out DEFAULT_CLINICAL_THRESHOLDS (H := ascii_only) ms
       = Ok emitted
    /\ severity <$> emitted = [Info; Info; Warn]
    /\ severity <$> out = [Warn; Info; Info]
    /\ StronglySorted sev_le out
    /\ forall s, of_severity s out = of_severity s emitted.
Proof.
  intros point ms.
  eexists. eexists.
  split; [vm_compute; reflexivity|].
  split; [vm_compute; reflexivity|].
  split; [reflexivity|]. split; [reflexivity|].
  destruct (proj2 (insights_sorted_stable (H := ascii_only)
                     DEFAULT_CLINICAL_THRESHOLDS) ms _ eq_refl)
    as (S & emitted & E & St).
  split; [exact S|].
  injection E as <-. exact St.
Defined.


(** C8 as stated fails: a history with two weighted points, one of which
    has a date that is not of the form YYYY-MM-DD, gives no list but the
    ValueError of [strptime]; and a latest point with a height so small
    that the square of its metres is zero gives the ZeroDivisionError of
    [bmi]. *)
Lemma measurement_alerts_raises :
  let point d h := mkMeasurement (lit d) h (Some 70%b64) None in
  measurement_alerts DEFAULT_CLINICAL_THRESHOLDS (H := ascii_only)
    [point "2024-01-15" None; point "15.01.2024" None]
  = Raise ValueError /\
  measurement_alerts DEFAULT_CLINICAL_THRESHOLDS (H := ascii_only)
    [point "2024-01-15" (Some 1e-200%b64); point "2024-01-01" None]
  = Raise ZeroDivisionError.
Proof. vm_compute. split; reflexivity. Qed.

(** ** Every extracted row is classified *)

Lemma ends_solid_app (x mid y : str) :
  ends_solid x -> ends_solid y -> ends_solid (x ++ mid ++ y).
Proof.
  intros [(h & t & -> & Eh) _] [_ (pre & z & -> & Ez)]. split.
  - exists h, (t ++ mid ++ pre ++ [z]). split; [reflexivity | exact Eh].
  - exists ((h :: t) ++ mid ++ pre), z. split; [|exact Ez].
    rewrite <- !app_assoc. reflexivity.
Qed.

Lemma ends_solid_single (c : char) : is_space c = false -> ends_solid [c].
Proof.
  intros E. split; [exists c, [] | exists [], c]; split;
    first [reflexivity | exact E].
Qed.

Lemma rstrip_keeps (pre : str) (z : char) (b : str) :
  is_space z = false -> exists b', rstrip (pre ++ z :: b) = pre ++ z :: b'.
Proof.
  intros E. induction pre as [|x pre (b' & IH)]; cbn [app rstrip].
  - destruct (rstrip b) as [|y r]; [rewrite E|]; eauto.
  - rewrite IH. destruct pre; cbn [app]; eauto.
Qed.

Lemma strip_keeps (s1 b : str) :
  ends_solid s1 -> exists b', strip (s1 ++ b) = s1 ++ b'.
Proof.
  intros [(h & t & Eh & Sh) (pre & z & Ez & Sz)]. unfold strip.
  assert (L : lstrip (s1 ++ b) = s1 ++ b)
    by (rewrite Eh; apply lstrip_fixed, Sh).
  rewrite L. destruct (rstrip_keeps pre z b Sz) as (b' & Er).
  exists b'. rewrite Ez, <- !app_assoc. exact Er.
Qed.

Lemma nonempty_last {A} (x : A) (l : list A) :
  exists pre z, x :: l = pre ++ [z] /\ z ∈ x :: l.
Proof.
  revert x. induction l as [|y l IH]; intros x.
  - exists [], x. split; [reflexivity | constructor].
  - destruct (IH y) as (pre & z & E & I).
    exists (x :: pre), z. rewrite E. split; [reflexivity|].
    rewrite <- E. constructor. exact I.
Qed.

Section Rows.
Context `{UnicodeData}.

Lemma digits_end_solid (d : char) (ds : str) :
  Forall (fun c => is_digit c = true) (d :: ds) ->
  exists pre z, d :: ds = pre ++ [z] /\ is_space z = false.
Proof.
  intros F. destruct (nonempty_last d ds) as (pre & z & E & I).
  exists pre, z. split; [exact E|].
  rewrite Forall_forall in F. apply digit_not_space, F, I.
Qed.

Lemma number_ends_solid (t : str) :
  number_shape is_dot_comma t -> ends_solid t.
Proof.
  intros (sgn & d & ds & frac & -> & Sg & D & Fr). split.
  - inversion D as [|? ? Dd _]; subst.
    destruct Sg as [->|[->| ->]]; cbn [app]; eexists _, _;
      (split; [reflexivity|]); first [reflexivity | apply digit_not_space, Dd].
  - destruct Fr as [->|(p & e & es & -> & _ & E)].
    + destruct (digits_end_solid d ds D) as (pre & z & Ed & Ez).
      exists (sgn ++ pre), z. split; [|exact Ez].
      rewrite app_nil_r, Ed, <- app_assoc. reflexivity.
    + destruct (digits_end_solid e es E) as (pre & z & Ee & Ez).
      exists (sgn ++ (d :: ds) ++ p :: pre), z. split; [|exact Ez].
      change (p :: e :: es) with ([p] ++ e :: es).
      rewrite Ee, <- !app_assoc. reflexivity.
Qed.

Lemma group_number_ends_solid (g : string) (t : str) (c : caps) :
  matches (Group g NUMBER) t c -> ends_solid t.
Proof.
  intros M. inversion M as [| | | | | | | |? ? ? c' M']; subst.
  apply number_matches in M' as [_ Sh]. apply number_ends_solid, Sh.
Qed.

Lemma range_ends_solid (s : str) (c : caps) :
  matches _RE_RANGE s c -> ends_solid s.
Proof.
  unfold _RE_RANGE. intros M.
  inversion M as [| |? ? t1 r1 ? ? M1 M2| | | | | |]; subst; clear M.
  inversion M2 as [| |? ? w1 r2 ? ? _ M3| | | | | |]; subst; clear M2.
  inversion M3 as [| |? ? dash r3 ? ? _ M4| | | | | |]; subst; clear M3.
  inversion M4 as [| |? ? w2 t2 ? ? _ M5| | | | | |]; subst; clear M4.
  apply group_number_ends_solid in M1, M5.
  replace (t1 ++ w1 ++ dash ++ w2 ++ t2) with (t1 ++ (w1 ++ dash ++ w2) ++ t2)
    by (rewrite <- !app_assoc; reflexivity).
  apply ends_solid_app; assumption.
Qed.

Lemma lim_ends_solid (x : N) (s : str) (c : caps) :
  is_space x = false ->
  matches (Cat (Lit1 x) (Cat (Star is_space) (Group "lim" NUMBER))) s c ->
  ends_solid s.
Proof.
  intros X M.
  inversion M as [| |? ? t1 r1 ? ? M1 M2| | | | | |]; subst; clear M.
  inversion M2 as [| |? ? w1 t2 ? ? _ M3| | | | | |]; subst; clear M2.
  apply group_number_ends_solid in M3.
  inversion M1 as [|? ? P| | | | | | |]; subst.
  apply N.eqb_eq in P. subst.
  apply ends_solid_app; [apply ends_solid_single, X | exact M3].
Qed.

Lemma ref_pattern_ends_solid (r : regex) (s : str) (c : caps) :
  ref_pattern r -> matches r s c -> ends_solid s.
Proof.
  intros [->|[->| ->]] M.
  - apply (range_ends_solid _ _ M).
  - apply (lim_ends_solid 60 _ _ eq_refl M).
  - apply (lim_ends_solid 62 _ _ eq_refl M).
Qed.

(** A text in which one of the patterns matches has a known mode. *)
Lemma parse_ref_known (r : regex) (t a s1 b : str) (c : caps) :
  ref_pattern r -> strip t = a ++ s1 ++ b -> matches r s1 c ->
  mode (parse_ref t) = MRange \/ mode (parse_ref t) = MLt
  \/ mode (parse_ref t) = MGt.
Proof.
  intros R E M. unfold parse_ref.
  destruct (search _RE_RANGE (strip t)) eqn:E1; [cbn; auto|].
  destruct (search _RE_LT (strip t)) eqn:E2; [cbn; auto|].
  destruct (search _RE_GT (strip t)) eqn:E3; [cbn; auto|].
  exfalso.
  assert (S : is_Some (search r (strip t))).
  { rewrite E. eapply search_from_complete, M. }
  destruct S as [m S].
  destruct R as [->|[->| ->]]; congruence.
Qed.

Lemma finditer_from_sound (r : regex) (s : str) :
  forall (pos skip : nat) (m : match_obj),
    m ∈ finditer_from r pos skip s ->
    exists a s1 b,
      s = a ++ s1 ++ b /\ matches r s1 (m_groups m)
      /\ m_start m = (pos + length a)%nat.
Proof.
  assert (Here : forall (s : str) pos rest c,
            match_here r s = Some (rest, c) ->
            exists a s1 b,
              s = a ++ s1 ++ b /\ matches r s1 (m_groups (mk_match pos s rest c))
              /\ m_start (mk_match pos s rest c) = (pos + length a)%nat).
  { intros s0 pos rest c E.
    apply exec_sound in E as (s1 & s2 & c' & Es & M & [= <- <-]).
    exists [], s1, s2. rewrite app_nil_r.
    repeat split; [exact Es | exact M | cbn; lia]. }
  assert (Shift : forall (x : char) (s : str) pos m,
            (exists a s1 b, s = a ++ s1 ++ b /\ matches r s1 (m_groups m)
                            /\ m_start m = (S pos + length a)%nat) ->
            exists a s1 b, x :: s = a ++ s1 ++ b /\ matches r s1 (m_groups m)
                           /\ m_start m = (pos + length a)%nat).
  { intros x s0 pos m (a & s1 & b & -> & M & P).
    exists (x :: a), s1, b. repeat split; [exact M|]. rewrite P. cbn. lia. }
  induction s as [|x s IH]; intros pos skip m I.
  - destruct skip as [|k]; cbn [finditer_from] in I.
    + destruct (match_here r []) as [[rest c]|] eqn:E.
      * apply list_elem_of_singleton in I as ->. apply (Here _ _ _ _ E).
      * apply elem_of_nil in I. destruct I.
    + apply elem_of_nil in I. destruct I.
  - destruct skip as [|k]; cbn [finditer_from] in I.
    + destruct (match_here r (x :: s)) as [[rest c]|] eqn:E.
      * apply elem_of_cons in I as [->|I]; [apply (Here _ _ _ _ E)|].
        apply Shift, (IH _ _ _ I).
      * apply Shift, (IH _ _ _ I).
    + apply Shift, (IH _ _ _ I).
Qed.

Lemma fold_last {A} (l : list A) (init : option A) (m : A) :
  fold_left (fun _ x => Some x) l init = Some m -> init = Some m \/ m ∈ l.
Proof.
  revert init. induction l as [|x l IH]; cbn [fold_left]; intros init E; [auto|].
  destruct (IH _ E) as [[= ->]|I]; right; [constructor | constructor; exact I].
Qed.

(** The match the extractor keeps is a match of one of the patterns, and
    the line from its start on begins with the matched text. *)
Lemma select_ref_match_sound (raw : str) (m : match_obj) :
  select_ref_match raw = Some m ->
  exists r s1 b,
    ref_pattern r /\ drop (m_start m) raw = s1 ++ b
    /\ matches r s1 (m_groups m).
Proof.
  unfold select_ref_match. intros E.
  apply fold_last in E as [E|I]; [discriminate|].
  assert (X : exists r, ref_pattern r /\ m ∈ finditer r raw).
  { unfold ref_pattern.
    apply elem_of_app in I as [I|I]; [eauto|].
    apply elem_of_app in I as [I|I]; eauto 6. }
  destruct X as (r & R & Ir).
  apply finditer_from_sound in Ir as (a & s1 & b & -> & M & P).
  exists r, s1, b. split; [exact R|]. split; [|exact M].
  rewrite P. cbn. apply drop_app_length.
Qed.

Lemma fullmatch_sound (r : regex) (s : str) (c : caps) :
  fullmatch r s = Some c -> matches r s c.
Proof.
  unfold fullmatch. intros E.
  apply exec_sound in E as (s1 & s2 & c' & -> & M & K).
  destruct s2; [|discriminate]. injection K as <-.
  rewrite !app_nil_r. exact M.
Qed.

Lemma num_matches (t : str) (c : caps) :
  matches _RE_NUM t c -> number_shape is_dot_comma t.
Proof.
  unfold _RE_NUM, UNSIGNED. intros M. inv_matches;
    repeat match goal with
    | E : is_sign _ = true |- _ =>
        unfold is_sign in E; apply orb_true_iff in E as [E|E];
        apply N.eqb_eq in E; subst
    end;
    unfold number_shape; do 4 eexists;
    (split; [reflexivity|]); (split; [auto|]);
    (split; [constructor; assumption|]);
    first [ left; reflexivity
          | right; do 3 eexists; split; [reflexivity|];
            split; [assumption|]; constructor; assumption ].
Qed.

Lemma rightmost_numeric_sound (tokens : list str) :
  forall i j, rightmost_numeric i tokens = Some j ->
  exists k, j = (i + k)%nat /\ is_Some (_to_float (nth k tokens [])).
Proof.
  induction tokens as [|t tokens IH]; intros i j; cbn [rightmost_numeric];
    [discriminate|].
  destruct (rightmost_numeric (S i) tokens) as [j'|] eqn:E.
  - intros [= <-]. destruct (IH _ _ E) as (k & -> & F).
    exists (S k). split; [lia | exact F].
  - destruct (fullmatch _RE_NUM t) as [c|] eqn:F; [|discriminate].
    intros [= <-]. exists 0%nat. split; [lia|].
    cbn [nth]. apply to_float_number, (num_matches t c), fullmatch_sound, F.
Qed.

(** With a value and a reference of a known mode, the status is known. *)
Lemma classify_value_known (v : float) (ref : RefRange) (ratio : float) :
  mode_bounds ref ->
  mode ref = MRange \/ mode ref = MLt \/ mode ref = MGt ->
  let st := classify_value (Some v) ref ratio in
  st = Low \/ st = High \/ st = Borderline \/ st = Normal.
Proof.
  unfold mode_bounds, classify_value. intros B K.
  destruct ref as [md lo hi tx]; cbn [mode low high] in *.
  destruct K as [->|[->| ->]]; destruct B as [B1 B2].
  - destruct B1 as [l ->], B2 as [h ->]. cbn zeta. f_cases; cbn; auto.
  - destruct B2 as [h ->]. subst lo. f_cases; cbn; auto.
  - destruct B1 as [l ->]. subst hi. f_cases; cbn; auto.
Qed.

Lemma extract_row_classified (line : str) (row : LabRow) :
  _extract_row_from_line line = Some row -> row_classified row.
Proof.
  unfold _extract_row_from_line.
  set (raw := sub_runs_space is_space false (strip line)).
  destruct (length raw <? 8)%nat; [discriminate|].
  destruct (select_ref_match raw) as [m|] eqn:Em; [|discriminate].
  destruct (rightmost_numeric 0 _) as [j|] eqn:Ej; [|discriminate].
  destruct (length _ <? 2)%nat; [discriminate|].
  intros [= <-]. unfold row_classified; cbn.
  apply rightmost_numeric_sound in Ej as (k & -> & [v V]).
  cbn [Nat.add] in *. rewrite V.
  apply select_ref_match_sound in Em as (r & s1 & b & R & Ed & M).
  pose proof (ref_pattern_ends_solid r s1 _ R M) as Solid.
  destruct (strip_keeps s1 b Solid) as [b' Es].
  assert (K : let p := parse_ref (strip (drop (m_start m) raw)) in
              mode p = MRange \/ mode p = MLt \/ mode p = MGt).
  { apply (parse_ref_known r _ [] s1 b' (m_groups m) R); [|exact M].
    rewrite strip_idem, Ed, Es. reflexivity. }
  split; [eauto|]. split; [exact K|].
  split; [apply parse_ref_has_bounds|].
  apply classify_value_known; [apply parse_ref_has_bounds | exact K].
Qed.

End Rows.

(** C10.  Every row of [parse_enabiz_text] has a value, a reference of mode
    Range, LessThan or GreaterThan with the bounds of that mode, and a
    status that is low, high, borderline or normal. *)
Theorem parse_enabiz_text_classified `{UnicodeData} (text : str) :
  Forall row_classified (parse_enabiz_text text).
Proof.
  apply Forall_forall. intros row I. unfold parse_enabiz_text in I.
  apply list_elem_of_omap in I as (line & _ & E).
  apply (extract_row_classified line row E).
Qed.

(* ===================================================================== *)
(** * Further properties of the code *)
(* ===================================================================== *)

(** ** One-sided references and inverted ranges *)





Lemma flt_nan_l (x : float) : flt S754_nan x = false.
Proof. reflexivity. Qed.

Lemma flt_nan_r (x : float) : flt x S754_nan = false.
Proof. destruct x as [|[]| |[]]; reflexivity. Qed.

Lemma fle_nan_l (x : float) : fle S754_nan x = false.
Proof. reflexivity. Qed.

Lemma fle_nan_r (x : float) : fle x S754_nan = false.
Proof. destruct x as [|[]| |[]]; reflexivity. Qed.

(** X3.  A value that is NaN is classified Normal against every reference
    that has the bounds of its mode, whatever the bounds and the ratio:
    each comparison of the three branches is false. *)
Theorem classify_value_nan (ref : RefRange) (r : float) :
  mode_bounds ref ->
  mode ref = MRange \/ mode ref = MLt \/ mode ref = MGt ->
  classify_value (Some S754_nan) ref r = Normal.
Proof.
  unfold mode_bounds, classify_value. intros B K.
  destruct ref as [md lo hi tx]; cbn [mode low high] in *.
  destruct K as [->|[->| ->]]; destruct B as [B1 B2].
  - destruct B1 as [l ->], B2 as [h ->]. cbn zeta.
    rewrite flt_nan_l, flt_nan_r, fle_nan_l, fle_nan_r. reflexivity.
  - destruct B2 as [h ->]. subst lo.
    rewrite flt_nan_r, fle_nan_r. reflexivity.
  - destruct B1 as [l ->]. subst hi.
    rewrite flt_nan_l, fle_nan_l. reflexivity.
Qed.

Lemma classify_value_nan_witness :
  classify_value (Some S754_nan) (range_of 70 100) 0.05 = Normal
  /\ classify_value (Some S754_nan) (less_than 5) 0.05 = Normal.
Proof.
  split.
  - apply (classify_value_nan (range_of 70 100) 0.05).
    + split; eexists; reflexivity.
    + left. reflexivity.
  - apply (classify_value_nan (less_than 5) 0.05).
    + split; [reflexivity | eexists; reflexivity].
    + right. left. reflexivity.
Defined.



(** ** The line extractor *)

Lemma lstrip_length (s : str) : (length (lstrip s) <= length s)%nat.
Proof.
  induction s as [|c s IH]; cbn [lstrip]; [lia|].
  destruct (is_space c); cbn [length]; lia.
Qed.

Lemma rstrip_length (s : str) : (length (rstrip s) <= length s)%nat.
Proof.
  induction s as [|c s IH]; cbn [rstrip]; [lia|].
  destruct (rstrip s); [destruct (is_space c)|]; cbn [length] in *; lia.
Qed.

Lemma strip_length (s : str) : (length (strip s) <= length s)%nat.
Proof.
  unfold strip. pose proof (rstrip_length (lstrip s)).
  pose proof (lstrip_length s). lia.
Qed.

Lemma sub_runs_length (p : char -> bool) (b : bool) (s : str) :
  (length (sub_runs_space p b s) <= length s)%nat.
Proof.
  revert b. induction s as [|c s IH]; intros b; cbn [sub_runs_space]; [lia|].
  pose proof (IH true). pose proof (IH false).
  destruct (p c); [destruct b|]; cbn [length]; lia.
Qed.





Section ExtractorFacts.
Context `{UnicodeData}.

(** X5.  A line of fewer than 8 characters gives no row, whatever it holds. *)
Theorem extract_short_line (line : str) :
  (length line < 8)%nat -> _extract_row_from_line line = None.
Proof.
  intros L. unfold _extract_row_from_line.
  pose proof (sub_runs_length is_space false (strip line)) as L1.
  pose proof (strip_length line) as L2.
  destruct (Nat.ltb_spec (length (sub_runs_space is_space false (strip line))) 8);
    [reflexivity | lia].
Qed.





End ExtractorFacts.


Lemma extract_short_line_witness :
  _extract_row_from_line (H := ascii_only) (lit "Hb 13") = None.
Proof.
  apply (extract_short_line (H := ascii_only)). cbn. lia.
Defined.

(** *** White space of a line *)

Lemma space_32 : is_space 32 = true.
Proof. reflexivity. Qed.

Lemma not_space_not_32 (c : N) : is_space c = false -> (c =? 32) = false.
Proof.
  intros E. apply N.eqb_neq. intros ->. rewrite space_32 in E. discriminate.
Qed.

Lemma squeezed_cons (b : bool) (c : N) (s : str) :
  squeezed b (c :: s) = true ->
  (c = 32 /\ b = false /\ squeezed true s = true)
  \/ (is_space c = false /\ squeezed false s = true).
Proof.
  cbn [squeezed]. destruct (N.eqb_spec c 32) as [->|N].
  - rewrite andb_true_iff, negb_true_iff. intros [B T]. left. auto.
  - rewrite andb_true_iff, negb_true_iff. intros [A T]. right. auto.
Qed.

Lemma sub_runs_squeezed (inrun : bool) (s : str) :
  squeezed inrun (sub_runs_space is_space inrun s) = true.
Proof.
  revert inrun. induction s as [|c s IH]; intros inrun; [reflexivity|].
  cbn [sub_runs_space]. destruct (is_space c) eqn:E.
  - destruct inrun; [apply IH|]. cbn [squeezed]. rewrite N.eqb_refl. apply IH.
  - cbn [squeezed]. rewrite (not_space_not_32 c E), E. apply IH.
Qed.

Lemma squeezed_sub_runs (b : bool) (s : str) :
  squeezed b s = true -> sub_runs_space is_space b s = s.
Proof.
  revert b. induction s as [|c s IH]; intros b T; [reflexivity|].
  apply squeezed_cons in T as [(-> & -> & T)|(E & T)]; cbn [sub_runs_space].
  - rewrite space_32, (IH _ T). reflexivity.
  - rewrite E, (IH _ T). reflexivity.
Qed.

Lemma lstrip_fixed_head (c : N) (s : str) :
  lstrip (c :: s) = c :: s -> is_space c = false.
Proof.
  cbn [lstrip]. destruct (is_space c); [|reflexivity].
  intros E. pose proof (lstrip_length s) as L.
  rewrite E in L. cbn [length] in L. lia.
Qed.

Lemma rstrip_ends (s : str) :
  rstrip s = [] \/ exists pre z, rstrip s = pre ++ [z] /\ is_space z = false.
Proof.
  induction s as [|c s IH]; [left; reflexivity|].
  cbn [rstrip]. destruct (rstrip s) as [|a r].
  - destruct (is_space c) eqn:E; [left; reflexivity|].
    right. exists [], c. auto.
  - right. destruct IH as [IH|(pre & z & -> & Ez)]; [discriminate|].
    exists (c :: pre), z. auto.
Qed.

Lemma rstrip_snoc (pre : str) (z : N) :
  is_space z = false -> rstrip (pre ++ [z]) = pre ++ [z].
Proof.
  intros E. induction pre as [|x pre IH]; cbn [app rstrip].
  - rewrite E. reflexivity.
  - rewrite IH. destruct pre; reflexivity.
Qed.

Lemma sub_runs_snoc (p : char -> bool) (b : bool) (pre : str) (z : N) :
  p z = false ->
  sub_runs_space p b (pre ++ [z]) = sub_runs_space p b pre ++ [z].
Proof.
  intros E. revert b. induction pre as [|x pre IH]; intros b;
    cbn [app sub_runs_space].
  - rewrite E. reflexivity.
  - destruct (p x); [destruct b|]; rewrite IH; reflexivity.
Qed.

(** The text the extractor works on has no white space at its ends and only
    single spaces inside, so normalising it again changes nothing. *)
Lemma raw_line_fixed (line : str) :
  let raw := sub_runs_space is_space false (strip line) in
  sub_runs_space is_space false (strip raw) = raw.
Proof.
  intros raw.
  assert (S : strip raw = raw).
  { unfold strip.
    assert (L : lstrip raw = raw).
    { subst raw. pose proof (lstrip_rstrip line) as Ls. fold (strip line) in Ls.
      destruct (strip line) as [|c y]; [reflexivity|].
      apply lstrip_fixed_head in Ls. cbn [sub_runs_space]. rewrite Ls.
      apply lstrip_fixed, Ls. }
    rewrite L. subst raw. unfold strip.
    destruct (rstrip_ends (lstrip line)) as [->|(pre & z & -> & Ez)];
      [reflexivity|].
    rewrite (sub_runs_snoc _ _ _ _ Ez). apply rstrip_snoc, Ez. }
  rewrite S. apply squeezed_sub_runs, sub_runs_squeezed.
Qed.

Section ExtractorMore.
Context `{UnicodeData}.

(** X7.  The extractor sees a line only through its normal form (ends
    stripped, every run of white space one space): the normal form of a
    line gives the row of the line. *)
Theorem extract_normalised (line : str) :
  _extract_row_from_line (sub_runs_space is_space false (strip line))
  = _extract_row_from_line line.
Proof.
  unfold _extract_row_from_line. rewrite (raw_line_fixed line). reflexivity.
Qed.

(** The loop over the tokens stops at the rightmost number: it answers an
    index of the list, the token there is a number and no later one is. *)
Lemma rightmost_numeric_spec (tokens : list str) :
  forall i,
    match rightmost_numeric i tokens with
    | Some j =>
        exists k, j = (i + k)%nat /\ (k < length tokens)%nat
          /\ is_Some (fullmatch _RE_NUM (nth k tokens []))
          /\ Forall (fun t => fullmatch _RE_NUM t = None) (drop (S k) tokens)
    | None => Forall (fun t => fullmatch _RE_NUM t = None) tokens
    end.
Proof.
  induction tokens as [|t tokens IH]; intros i; cbn [rightmost_numeric];
    [constructor|].
  specialize (IH (S i)).
  destruct (rightmost_numeric (S i) tokens) as [j|].
  - destruct IH as (k & -> & L & F & R).
    exists (S k). repeat split; [lia | cbn [length]; lia | exact F | exact R].
  - destruct (fullmatch _RE_NUM t) as [c|] eqn:F.
    + exists 0%nat.
      repeat split; [lia | cbn [length]; lia | cbn [nth]; rewrite F; eauto|].
      cbn [drop]. exact IH.
    + constructor; assumption.
Qed.

(** X8.  Every row the extractor builds is consistent: the value is the
    float of the result text, which is a number token; the reference is
    the parse of the reference text; the status is the classification of
    the value against it at the default ratio; the name has at least two
    characters; name, unit and reference text carry no white space at
    their ends. *)
Theorem extract_row_consistent (line : str) (row : LabRow) :
  _extract_row_from_line line = Some row -> row_consistent row.
Proof.
  unfold _extract_row_from_line.
  set (raw := sub_runs_space is_space false (strip line)).
  destruct (length raw <? 8)%nat; [discriminate|].
  destruct (select_ref_match raw) as [m|]; [|discriminate].
  pose proof (rightmost_numeric_spec
                (split_space (strip (take (m_start m) raw))) 0) as R.
  destruct (rightmost_numeric 0 _) as [j|]; [|discriminate].
  destruct R as (k & -> & _ & F & _). cbn [Nat.add].
  destruct (Nat.ltb_spec (length
              (strip (join_space (take k
                 (split_space (strip (take (m_start m) raw))))))) 2)
    as [|L]; [discriminate|].
  intros [= <-]. unfold row_consistent; cbn.
  repeat split; try reflexivity; try apply strip_idem; try exact L; try exact F.
  match goal with
  | |- context [if ?b then _ else _] => destruct b
  end; [apply strip_idem | reflexivity].
Qed.

End ExtractorMore.

Lemma extract_row_consistent_witness :
  exists row,
    _extract_row_from_line (H := ascii_only)
      (lit "  HDL   Kolesterol 28 mg/dL >40 ") = Some row
    /\ test_name row = lit "HDL Kolesterol"
    /\ row_consistent (H := ascii_only) row.
Proof.
  eexists. split; [vm_compute; reflexivity|]. split; [reflexivity|].
  eapply (extract_row_consistent (H := ascii_only)
            (lit "  HDL   Kolesterol 28 mg/dL >40 ")).
  vm_compute. reflexivity.
Defined.

(** ** Texts of several lines and pages *)

Section Pages.
Context `{UnicodeData}.

Lemma extract_empty_line : _extract_row_from_line [] = None.
Proof. reflexivity. Qed.

Lemma rows_of_lines_cons (l : str) (ls : list str) :
  omap _extract_row_from_line (l :: ls)
  = match _extract_row_from_line l with
    | Some r => [r]
    | None => []
    end ++ omap _extract_row_from_line ls.
Proof.
  destruct (_extract_row_from_line l) eqn:E;
    cbn -[_extract_row_from_line]; rewrite E; reflexivity.
Qed.

(** A line feed after any text closes its last line and starts afresh. *)
Lemma splitlines_aux_feed (a b : str) :
  forall (after_cr : bool) (cur : str),
    (after_cr = true -> cur = []) ->
    omap _extract_row_from_line (splitlines_aux after_cr cur (a ++ 10 :: b))
    = omap _extract_row_from_line (splitlines_aux after_cr cur a)
      ++ omap _extract_row_from_line (splitlines b).
Proof.
  induction a as [|c a IH]; intros after_cr cur Inv; cbn [app splitlines_aux].
  - destruct after_cr; cbn [andb].
    + rewrite (Inv eq_refl). replace (10 =? 10) with true by reflexivity.
      reflexivity.
    + replace (is_linebreak 10) with true by reflexivity.
      replace (10 =? 13) with false by reflexivity.
      fold (splitlines b).
      destruct cur as [|x cur].
      * cbn [rev]. rewrite rows_of_lines_cons, extract_empty_line. reflexivity.
      * rewrite !rows_of_lines_cons.
        change (omap _extract_row_from_line []) with (@nil LabRow).
        rewrite app_nil_r. reflexivity.
  - destruct (after_cr && (c =? 10)).
    + apply IH. discriminate.
    + destruct (is_linebreak c).
      * rewrite !rows_of_lines_cons, <- app_assoc. f_equal.
        apply IH. reflexivity.
      * apply IH. discriminate.
Qed.

Lemma rows_feed (a b : str) :
  parse_enabiz_text (a ++ 10 :: b)
  = parse_enabiz_text a ++ parse_enabiz_text b.
Proof.
  unfold parse_enabiz_text, splitlines at 1 2.
  apply splitlines_aux_feed. discriminate.
Qed.

(** X9.  Rows never span a line feed: the rows of two texts joined by a
    line feed are the rows of the first followed by the rows of the
    second. *)
Theorem parse_enabiz_text_feed (a b : str) :
  parse_enabiz_text (a ++ 10 :: b)
  = parse_enabiz_text a ++ parse_enabiz_text b.
Proof.
  unfold parse_enabiz_text, splitlines at 1 2.
  apply splitlines_aux_feed. discriminate.
Qed.

Lemma parse_enabiz_text_empty : parse_enabiz_text [] = [].
Proof. reflexivity. Qed.

Lemma rows_of_parts (parts : list str) :
  parse_enabiz_text (join_newline parts)
  = concat (map parse_enabiz_text parts).
Proof.
  induction parts as [|x parts IH]; [reflexivity|].
  destruct parts as [|y parts].
  - cbn [join_newline map concat]. rewrite app_nil_r. reflexivity.
  - change (join_newline (x :: y :: parts))
      with (x ++ 10 :: join_newline (y :: parts)).
    rewrite rows_feed, IH. reflexivity.
Qed.

Lemma page_parts_cons (p : option str) (pages : list (option str)) :
  omap page_part (p :: pages)
  = match page_part p with
    | Some t => t :: omap page_part pages
    | None => omap page_part pages
    end.
Proof. reflexivity. Qed.

(** X10.  The rows of a document are the rows of its pages, page after
    page: joining the page texts with line feeds loses and adds nothing,
    and a page that gave no text (or whose extraction failed) gives no
    row. *)
Theorem parse_enabiz_pdf_pages (pages : list (option str)) :
  parse_enabiz_pdf pages
  = concat (map (fun p => parse_enabiz_text (default [] p)) pages).
Proof.
  unfold parse_enabiz_pdf, extract_text_from_pdf. rewrite rows_of_parts.
  induction pages as [|p pages IH]; [reflexivity|].
  rewrite page_parts_cons. cbn [map concat].
  destruct p as [[|c t]|]; cbn [page_part default from_option id];
    try (rewrite parse_enabiz_text_empty; cbn [app]; exact IH).
  cbn [map concat]. rewrite IH. reflexivity.
Qed.

End Pages.

(** ** Round trips of the reference parser *)

Lemma star_exec_greedy {A} (p : char -> bool) (ds rest : str)
  (k : str -> option A) :
  Forall (fun c => p c = true) ds ->
  match rest with [] => True | c :: _ => p c = false end ->
  is_Some (k rest) ->
  star_exec p (ds ++ rest) k = k rest.
Proof.
  intros F R S. induction F as [|c ds P F IH]; cbn [app].
  - destruct rest as [|c r]; cbn [star_exec]; [reflexivity|].
    rewrite R. reflexivity.
  - cbn [star_exec]. rewrite P, IH. destruct S as [x ->]. reflexivity.
Qed.

Section RoundTrip.
Context `{UnicodeData}.

Lemma sep_not_digit (p : N) : is_dot_comma p = true -> is_digit p = false.
Proof.
  intros S. destruct (is_digit p) eqn:D; [|reflexivity].
  unfold is_dot_comma in S.
  rewrite (digit_not_punct p 46 D), (digit_not_punct p 44 D) in S by lia.
  discriminate.
Qed.

Lemma stops_digit (rest : str) :
  stops rest -> match rest with [] => True | c :: _ => is_digit c = false end.
Proof. destruct rest; [auto | intros [D _]; exact D]. Qed.

(** On a number followed by a text where it stops, the pattern takes the
    whole number and hands over what follows. *)
Lemma exec_unsigned {A} (t rest : str) (cs : caps)
  (k : str -> caps -> option A) :
  unsigned_number t -> stops rest -> is_Some (k rest cs) ->
  exec UNSIGNED (t ++ rest) cs k = k rest cs.
Proof.
  intros (d & ds & frac & -> & D & Fr) St S.
  inversion D as [|? ? Dd Dds]; subst.
  unfold UNSIGNED, Plus. cbn [exec app]. rewrite Dd.
  rewrite <- app_assoc.
  match goal with |- star_exec _ _ ?K = _ => set (Kc := K) end.
  assert (Tail : Kc (frac ++ rest) = k rest cs).
  { subst Kc. cbn beta.
    destruct Fr as [->|(p & e & es & -> & P & E)]; cbn [app].
    - destruct rest as [|c r]; [reflexivity|].
      destruct St as [_ Sc]. rewrite Sc. reflexivity.
    - inversion E as [|? ? De Des]; subst.
      rewrite P, De.
      rewrite (star_exec_greedy is_digit es rest _ Des (stops_digit _ St) S).
      destruct S as [x ->]. reflexivity. }
  rewrite star_exec_greedy; [exact Tail | exact Dds | | rewrite Tail; exact S].
  destruct Fr as [->|(p & e & es & -> & P & _)]; cbn [app].
  - apply stops_digit, St.
  - apply sep_not_digit, P.
Qed.

Lemma unsigned_head (t : str) :
  unsigned_number t -> exists d t', t = d :: t' /\ is_digit d = true.
Proof.
  intros (d & ds & frac & -> & D & _). inversion D; subst.
  exists d, (ds ++ frac). auto.
Qed.

Lemma exec_group_number {A} (g : string) (t rest : str) (cs : caps)
  (k : str -> caps -> option A) :
  unsigned_number t -> stops rest -> is_Some (k rest ((g, t) :: cs)) ->
  exec (Group g NUMBER) (t ++ rest) cs k = k rest ((g, t) :: cs).
Proof.
  intros U St S.
  destruct (unsigned_head t U) as (d & t' & Et & Dd).
  change (exec (Group g NUMBER) (t ++ rest) cs k)
    with (match exec (Lit1 45) (t ++ rest) cs
                  (fun s1 c1 => exec UNSIGNED s1 c1
                     (fun s' c' =>
                        k s' ((g, take (length (t ++ rest) - length s')
                                    (t ++ rest)) :: c'))) with
          | Some x => Some x
          | None => exec UNSIGNED (t ++ rest) cs
                      (fun s' c' =>
                         k s' ((g, take (length (t ++ rest) - length s')
                                     (t ++ rest)) :: c'))
          end).
  replace (exec (Lit1 45) (t ++ rest) cs _) with (@None A).
  - rewrite exec_unsigned; [| exact U | exact St |];
      rewrite take_matched; [reflexivity | exact S].
  - rewrite Et. unfold Lit1. cbn [app exec]. unfold is_char.
    rewrite (digit_not_punct d 45 Dd) by lia. reflexivity.
Qed.

Lemma space_stops (c : N) (r : str) : is_space c = true -> stops (c :: r).
Proof.
  intros Sp. split.
  - destruct (is_digit c) eqn:D; [|reflexivity].
    rewrite (digit_not_space c D) in Sp. discriminate.
  - unfold is_dot_comma.
    destruct (N.eqb_spec c 46) as [->|]; [discriminate Sp|].
    destruct (N.eqb_spec c 44) as [->|]; [discriminate Sp | reflexivity].
Qed.

Lemma spaces_then_stops (ws : str) (c : N) (r : str) :
  Forall (fun x => is_space x = true) ws -> stops (c :: r) ->
  stops (ws ++ c :: r).
Proof. intros [|x ws' X _] St; [exact St | apply space_stops, X]. Qed.

Lemma unsigned_not_space_head (t rest : str) :
  unsigned_number t ->
  match t ++ rest with [] => True | c :: _ => is_space c = false end.
Proof.
  intros U. destruct (unsigned_head t U) as (d & t' & -> & Dd).
  cbn [app]. apply digit_not_space, Dd.
Qed.

(** The range pattern on two numbers around a minus sign. *)
Lemma range_match_here (a ws1 ws2 b : str) :
  unsigned_number a -> unsigned_number b ->
  Forall (fun x => is_space x = true) ws1 ->
  Forall (fun x => is_space x = true) ws2 ->
  match_here _RE_RANGE (a ++ ws1 ++ 45 :: ws2 ++ b)
  = Some ([], [("high", b); ("low", a)]).
Proof.
  intros Ua Ub W1 W2. unfold match_here, _RE_RANGE.
  change (exec (Group "low" NUMBER) (a ++ ws1 ++ 45 :: ws2 ++ b) []
            (fun s0 c0 => star_exec is_space s0
               (fun s' => exec (Lit1 45) s' c0
                  (fun s1 c1 => star_exec is_space s1
                     (fun s2 => exec (Group "high" NUMBER) s2 c1
                                  (fun s'' c => Some (s'', c))))))
          = Some ([], [("high", b); ("low", a)])).
  assert (E5 : forall cs,
             exec (Group "high" NUMBER) b cs (fun s' c => Some (s', c))
             = Some ([], ("high", b) :: cs)).
  { intros cs. rewrite <- (app_nil_r b) at 1.
    rewrite exec_group_number; [reflexivity | exact Ub | exact I | eauto]. }
  assert (E4 : forall cs,
             star_exec is_space (ws2 ++ b)
               (fun s' => exec (Group "high" NUMBER) s' cs
                            (fun s'' c => Some (s'', c)))
             = Some ([], ("high", b) :: cs)).
  { intros cs. rewrite star_exec_greedy; [apply E5 | exact W2 | | rewrite E5; eauto].
    rewrite <- (app_nil_r b). apply unsigned_not_space_head, Ub. }
  assert (E2 : forall cs,
             star_exec is_space (ws1 ++ 45 :: ws2 ++ b)
               (fun s' => exec (Lit1 45) s' cs
                  (fun s1 c1 => star_exec is_space s1
                     (fun s2 => exec (Group "high" NUMBER) s2 c1
                                  (fun s'' c => Some (s'', c)))))
             = Some ([], ("high", b) :: cs)).
  { intros cs.
    assert (E3 : exec (Lit1 45) (45 :: ws2 ++ b) cs
                   (fun s1 c1 => star_exec is_space s1
                      (fun s2 => exec (Group "high" NUMBER) s2 c1
                                   (fun s'' c => Some (s'', c))))
                 = Some ([], ("high", b) :: cs)).
    { unfold Lit1. cbn [exec]. unfold is_char. rewrite N.eqb_refl. apply E4. }
    rewrite star_exec_greedy; [exact E3 | exact W1 | reflexivity | rewrite E3; eauto]. }
  rewrite exec_group_number; [apply E2 | exact Ua | | cbn beta; rewrite E2; eauto].
  apply spaces_then_stops; [exact W1 | split; reflexivity].
Qed.

End RoundTrip.

Lemma strip_ends_solid (s : str) : ends_solid s -> strip s = s.
Proof.
  intros [(h & t & Eh & Sh) (pre & z & Ez & Sz)]. unfold strip.
  replace (lstrip s) with s by (rewrite Eh; symmetry; apply lstrip_fixed, Sh).
  rewrite Ez. apply rstrip_snoc, Sz.
Qed.

Lemma exec_lit_here {A} (x : N) (s : str) (cs : caps)
  (k : str -> caps -> option A) :
  exec (Lit1 x) (x :: s) cs k = k s cs.
Proof. unfold Lit1. cbn [exec]. unfold is_char. rewrite N.eqb_refl. reflexivity. Qed.

Lemma search_from_here (r : regex) (pos : nat) (s rest : str) (c : caps) :
  match_here r s = Some (rest, c) ->
  search_from r pos s = Some (mk_match pos s rest c).
Proof. intros E. destruct s; cbn [search_from]; rewrite E; reflexivity. Qed.

Section RoundTripTheorems.
Context `{UnicodeData}.

Lemma unsigned_shape (t : str) :
  unsigned_number t -> number_shape is_dot_comma t.
Proof.
  intros (d & ds & frac & -> & D & Fr).
  exists [], d, ds, frac. repeat split; auto.
Qed.

Lemma unsigned_to_float (t : str) : unsigned_number t -> is_Some (_to_float t).
Proof. intros U. apply to_float_number, unsigned_shape, U. Qed.

Lemma unsigned_ends_solid (t : str) : unsigned_number t -> ends_solid t.
Proof. intros U. apply number_ends_solid, unsigned_shape, U. Qed.

(** X11.  Two unsigned numbers around a minus sign, with any white space
    beside the sign, parse to the range of the two numbers; the text is
    kept as it is. *)
Theorem parse_ref_range_round_trip (a ws1 ws2 b : str) :
  unsigned_number a -> unsigned_number b ->
  Forall (fun x => is_space x = true) ws1 ->
  Forall (fun x => is_space x = true) ws2 ->
  let t := a ++ ws1 ++ 45 :: ws2 ++ b in
  parse_ref t = mkRefRange MRange (_to_float a) (_to_float b) t
  /\ is_Some (_to_float a) /\ is_Some (_to_float b).
Proof.
  intros Ua Ub W1 W2 t.
  split; [|split; apply unsigned_to_float; assumption].
  assert (S : strip t = t).
  { apply strip_ends_solid. subst t.
    replace (a ++ ws1 ++ 45 :: ws2 ++ b)
      with (a ++ (ws1 ++ 45 :: ws2) ++ b)
      by (rewrite <- !app_assoc; reflexivity).
    apply ends_solid_app; apply unsigned_ends_solid; assumption. }
  unfold parse_ref. rewrite S. unfold search.
  rewrite (search_from_here _ 0 t [] _ (range_match_here a ws1 ws2 b Ua Ub W1 W2)).
  reflexivity.
Qed.

Lemma range_needs_minus (s : str) (c : caps) :
  matches _RE_RANGE s c -> 45 ∈ s.
Proof.
  unfold _RE_RANGE. intros M.
  inversion M as [| |? ? t1 r1 ? ? M1 M2| | | | | |]; subst; clear M.
  inversion M2 as [| |? ? w1 r2 ? ? _ M3| | | | | |]; subst; clear M2.
  inversion M3 as [| |? ? dash r3 ? ? M4 _| | | | | |]; subst; clear M3.
  inversion M4 as [|? ? P| | | | | | |]; subst.
  apply N.eqb_eq in P. subst.
  rewrite !elem_of_app. right. right. left. constructor.
Qed.

Lemma lim_needs_sign (x : N) (s : str) (c : caps) :
  matches (Cat (Lit1 x) (Cat (Star is_space) (Group "lim" NUMBER))) s c ->
  x ∈ s.
Proof.
  intros M.
  inversion M as [| |? ? t1 r1 ? ? M1 M2| | | | | |]; subst; clear M.
  inversion M1 as [|? ? P| | | | | | |]; subst.
  apply N.eqb_eq in P. subst. constructor.
Qed.

Lemma search_none_without (r : regex) (y : N) (s : str) :
  (forall s1 c, matches r s1 c -> y ∈ s1) -> y ∉ s -> search r s = None.
Proof.
  intros Need Out. destruct (search r s) as [m|] eqn:E; [|reflexivity].
  exfalso. apply search_from_sound in E as (a & s1 & b & -> & M & _).
  apply Out. rewrite !elem_of_app. right. left. apply (Need _ _ M).
Qed.

(** In a limit text, nothing but the sign is below the digits. *)
Lemma limit_text_without (x y : N) (ws b : str) :
  x <> y -> is_space y = false -> y < 44 \/ y = 45 \/ y = 47 \/ 57 < y /\ y < 128 ->
  Forall (fun c => is_space c = true) ws -> unsigned_number b ->
  y ∉ x :: ws ++ b.
Proof.
  intros Nx Ny Ry W (d & ds & frac & -> & D & Fr) I.
  assert (Dg : forall c, is_digit c = true -> c <> y).
  { intros c Dc ->. destruct (digit_ascii y Dc); lia. }
  apply elem_of_cons in I as [E|I]; [congruence|].
  apply elem_of_app in I as [I|I].
  { rewrite Forall_forall in W. rewrite (W _ I) in Ny. discriminate. }
  apply elem_of_app in I as [I|I].
  { rewrite Forall_forall in D. apply (Dg y (D _ I)). reflexivity. }
  destruct Fr as [->|(p & e & es & -> & P & E)].
  { apply elem_of_nil in I. exact I. }
  apply elem_of_cons in I as [->|I].
  { unfold is_dot_comma in P. apply orb_true_iff in P as [P|P];
      apply N.eqb_eq in P; lia. }
  rewrite Forall_forall in E. apply (Dg y (E _ I)). reflexivity.
Qed.

Lemma lim_match_here (x : N) (ws b : str) :
  Forall (fun c => is_space c = true) ws -> unsigned_number b ->
  match_here (Cat (Lit1 x) (Cat (Star is_space) (Group "lim" NUMBER)))
    (x :: ws ++ b)
  = Some ([], [("lim", b)]).
Proof.
  intros W Ub. unfold match_here.
  change (exec (Lit1 x) (x :: ws ++ b) []
            (fun s1 c1 => star_exec is_space s1
               (fun s' => exec (Group "lim" NUMBER) s' c1
                            (fun s'' c => Some (s'', c))))
          = Some ([], [("lim", b)])).
  assert (E : exec (Group "lim" NUMBER) b [] (fun s'' c => Some (s'', c))
              = Some ([], [("lim", b)])).
  { rewrite <- (app_nil_r b) at 1.
    rewrite exec_group_number; [reflexivity | exact Ub | exact I | eauto]. }
  rewrite exec_lit_here.
  rewrite star_exec_greedy; [exact E | exact W | | rewrite E; eauto].
  rewrite <- (app_nil_r b). apply unsigned_not_space_head, Ub.
Qed.

(** X12.  A sign [<] or [>], white space or none, and an unsigned number
    parse to the limit of that number: the upper limit after [<], the
    lower one after [>]. *)
Theorem parse_ref_limit_round_trip (ws b : str) :
  Forall (fun c => is_space c = true) ws -> unsigned_number b ->
  parse_ref (60 :: ws ++ b)
    = mkRefRange MLt None (_to_float b) (60 :: ws ++ b)
  /\ parse_ref (62 :: ws ++ b)
     = mkRefRange MGt (_to_float b) None (62 :: ws ++ b)
  /\ is_Some (_to_float b).
Proof.
  intros W Ub.
  assert (S : forall x, is_space x = false -> strip (x :: ws ++ b) = x :: ws ++ b).
  { intros x X. apply strip_ends_solid.
    change (x :: ws ++ b) with ([x] ++ ws ++ b).
    apply ends_solid_app; [apply ends_solid_single, X|].
    apply unsigned_ends_solid, Ub. }
  assert (NR : forall x, x <> 45 ->
             search _RE_RANGE (x :: ws ++ b) = None).
  { intros x X. apply (search_none_without _ 45); [apply range_needs_minus|].
    apply limit_text_without;
      [exact X | reflexivity | right; left; reflexivity | exact W | exact Ub]. }
  split; [|split; [|apply unsigned_to_float, Ub]].
  - unfold parse_ref. rewrite (S 60 eq_refl), (NR 60) by discriminate.
    unfold search, _RE_LT.
    rewrite (search_from_here _ 0 _ [] _ (lim_match_here 60 ws b W Ub)).
    reflexivity.
  - unfold parse_ref. rewrite (S 62 eq_refl), (NR 62) by discriminate.
    replace (search _RE_LT (62 :: ws ++ b)) with (@None match_obj).
    + unfold search, _RE_GT.
      rewrite (search_from_here _ 0 _ [] _ (lim_match_here 62 ws b W Ub)).
      reflexivity.
    + symmetry. apply (search_none_without _ 60); [apply lim_needs_sign|].
      apply limit_text_without;
        [lia | reflexivity | right; right; right; lia | exact W | exact Ub].
Qed.

End RoundTripTheorems.

Lemma unsigned_number_example (t : str) (d : N) (ds frac : str) :
  t = (d :: ds) ++ frac ->
  forallb (is_digit (H := ascii_only)) (d :: ds) = true ->
  match frac with
  | [] => True
  | p :: e :: es =>
      is_dot_comma p = true
      /\ forallb (is_digit (H := ascii_only)) (e :: es) = true
  | _ => False
  end ->
  unsigned_number (H := ascii_only) t.
Proof.
  intros -> D Fr. exists d, ds, frac. split; [reflexivity|].
  split; [apply Forall_forall; intros c I; rewrite forallb_forall in D;
          apply D, list_elem_of_In, I|].
  destruct frac as [|p [|e es]]; [left; reflexivity | destruct Fr |].
  right. destruct Fr as [P E]. exists p, e, es. repeat split; [exact P|].
  apply Forall_forall; intros c I; rewrite forallb_forall in E.
  apply E, list_elem_of_In, I.
Qed.

Lemma parse_ref_range_round_trip_witness :
  parse_ref (H := ascii_only) (lit "0.5 -  1,25")
  = mkRefRange MRange (Some 0.5%b64) (Some 1.25%b64) (lit "0.5 -  1,25").
Proof.
  assert (Ua : unsigned_number (H := ascii_only) (lit "0.5")).
  { apply (unsigned_number_example _ 48 [] (lit ".5")); repeat split. }
  assert (Ub : unsigned_number (H := ascii_only) (lit "1,25")).
  { apply (unsigned_number_example _ 49 [] (lit ",25")); repeat split. }
  assert (W1 : Forall (fun x => is_space x = true) (lit " "))
    by (repeat constructor).
  assert (W2 : Forall (fun x => is_space x = true) (lit "  "))
    by (repeat constructor).
  apply (proj1 (parse_ref_range_round_trip (H := ascii_only)
                  (lit "0.5") (lit " ") (lit "  ") (lit "1,25") Ua Ub W1 W2)).
Defined.

Lemma parse_ref_limit_round_trip_witness :
  parse_ref (H := ascii_only) (lit "< 126")
  = mkRefRange MLt None (Some 126%b64) (lit "< 126")
  /\ parse_ref (H := ascii_only) (lit ">40")
     = mkRefRange MGt (Some 40%b64) None (lit ">40").
Proof.
  assert (U1 : unsigned_number (H := ascii_only) (lit "126")).
  { apply (unsigned_number_example _ 49 (lit "26") []); repeat split. }
  assert (U2 : unsigned_number (H := ascii_only) (lit "40")).
  { apply (unsigned_number_example _ 52 (lit "0") []); repeat split. }
  split.
  - apply (proj1 (parse_ref_limit_round_trip (H := ascii_only)
                    (lit " ") (lit "126") ltac:(repeat constructor) U1)).
  - apply (proj1 (proj2 (parse_ref_limit_round_trip (H := ascii_only)
                           [] (lit "40") ltac:(constructor) U2))).
Defined.

(** ** The keys of [norm_key] *)

Lemma synonyms_outputs_tidy :
  Forall (fun kv => tidy false (lit (snd kv)) = true
                    /\ strip (lit (snd kv)) = lit (snd kv)) synonyms_table.
Proof. unfold synonyms_table. repeat constructor. Qed.

Lemma case_eq_space (a b : N) : ascii_case_eq a b -> is_space a = is_space b.
Proof.
  intros [->|[(L & U & ->)|(L & U & ->)]]; [reflexivity| |].
  - transitivity false; [|symmetry]; unfold is_space;
      rewrite !orb_false_iff, !andb_false_iff, !N.leb_gt, !N.eqb_neq; lia.
  - transitivity false; [|symmetry]; unfold is_space;
      rewrite !orb_false_iff, !andb_false_iff, !N.leb_gt, !N.eqb_neq; lia.
Qed.

Lemma lstrip_case (x y : str) :
  Forall2 ascii_case_eq x y -> Forall2 ascii_case_eq (lstrip x) (lstrip y).
Proof.
  induction 1 as [|a b x y R F IH]; cbn [lstrip]; [constructor|].
  rewrite <- (case_eq_space a b R).
  destruct (is_space a); [exact IH | constructor; assumption].
Qed.

Lemma rstrip_case (x y : str) :
  Forall2 ascii_case_eq x y -> Forall2 ascii_case_eq (rstrip x) (rstrip y).
Proof.
  induction 1 as [|a b x y R F IH]; cbn [rstrip]; [constructor|].
  rewrite <- (case_eq_space a b R).
  destruct IH as [|a' b' x' y' R' F'].
  - destruct (is_space a); [constructor | constructor; [exact R | constructor]].
  - constructor; [exact R | constructor; assumption].
Qed.

Section NormKeyMore.
Context `{UnicodeData}.

(** X13.  Every key is tidy: small letters and digits, separated by single
    spaces, none at the ends. *)
Theorem norm_key_tidy (name : str) :
  tidy false (norm_key name) = true /\ strip (norm_key name) = norm_key name.
Proof.
  unfold norm_key.
  destruct (synonyms !! norm_text name) as [v|] eqn:E; cbn [default from_option id].
  - destruct (synonyms_lookup _ _ E) as (kv & I & ->).
    pose proof synonyms_outputs_tidy as F. rewrite Forall_forall in F.
    apply (F kv I).
  - split; [apply norm_text_tidy | apply norm_text_stripped].
Qed.

Lemma case_eq_fold (a b : N) :
  ascii_case_eq a b -> casefold_char a = casefold_char b.
Proof.
  intros [->|[(L & U & ->)|(L & U & ->)]]; [reflexivity| |];
    unfold casefold_char.
  - replace (a <? 128) with true by (symmetry; apply N.ltb_lt; lia).
    replace (a + 32 <? 128) with true by (symmetry; apply N.ltb_lt; lia).
    replace ((65 <=? a) && (a <=? 90)) with true
      by (symmetry; apply andb_true_iff; rewrite !N.leb_le; lia).
    replace ((65 <=? a + 32) && (a + 32 <=? 90)) with false
      by (symmetry; apply andb_false_iff; rewrite !N.leb_gt; lia).
    reflexivity.
  - replace (b <? 128) with true by (symmetry; apply N.ltb_lt; lia).
    replace (b + 32 <? 128) with true by (symmetry; apply N.ltb_lt; lia).
    replace ((65 <=? b) && (b <=? 90)) with true
      by (symmetry; apply andb_true_iff; rewrite !N.leb_le; lia).
    replace ((65 <=? b + 32) && (b + 32 <=? 90)) with false
      by (symmetry; apply andb_false_iff; rewrite !N.leb_gt; lia).
    reflexivity.
Qed.

Lemma casefold_case (x y : str) :
  Forall2 ascii_case_eq x y -> casefold x = casefold y.
Proof.
  unfold casefold. induction 1 as [|a b x y R F IH]; [reflexivity|].
  cbn [flat_map]. rewrite (case_eq_fold a b R), IH. reflexivity.
Qed.

(** X14.  The key does not depend on the case of the ASCII letters: two
    names that differ only there have the same key. *)
Theorem norm_key_ascii_case (x y : str) :
  Forall2 ascii_case_eq x y -> norm_key x = norm_key y.
Proof.
  intros F.
  assert (E : norm_text x = norm_text y).
  { unfold norm_text. f_equal. f_equal. f_equal. f_equal.
    apply casefold_case. unfold strip. apply rstrip_case, lstrip_case, F. }
  unfold norm_key. rewrite E. reflexivity.
Qed.

End NormKeyMore.

Lemma norm_key_ascii_case_witness :
  norm_key (H := ascii_only) (lit "CRP") = norm_key (H := ascii_only) (lit "crp").
Proof.
  apply (norm_key_ascii_case (H := ascii_only)).
  assert (U : forall a, 65 <= a -> a <= 90 -> ascii_case_eq a (a + 32)).
  { intros a L R. right. left. auto. }
  constructor; [apply (U 67); lia|].
  constructor; [apply (U 82); lia|].
  constructor; [apply (U 80); lia | constructor].
Defined.

(** ** The rows the rules see *)

Section Pick.
Context `{UnicodeData}.

Lemma by_key_step_at (acc : gmap (list N) lab_result) (x : lab_result)
  (k : str) :
  by_key_step acc x !! k
  = if has_key k x then
      match acc !! k with
      | None => Some x
      | Some cur =>
          if is_none (row_result_value cur) && has_value x
          then Some x else Some cur
      end
    else acc !! k.
Proof.
  unfold by_key_step, has_key, has_value.
  destruct (decide (norm_key (row_test_name x) = k)) as [E|N].
  - rewrite (bool_decide_eq_true_2 _ E). rewrite E.
    destruct (acc !! k) as [cur|] eqn:Ek.
    + destruct (_ && _); [apply lookup_insert_eq | exact Ek].
    + apply lookup_insert_eq.
  - rewrite (bool_decide_eq_false_2 _ N).
    destruct (acc !! norm_key (row_test_name x)) as [cur|].
    + destruct (_ && _); [apply lookup_insert_ne, N | reflexivity].
    + apply lookup_insert_ne, N.
Qed.

Lemma fold_by_key_at (rows : list lab_result) (k : str) :
  forall acc : gmap (list N) lab_result,
    fold_left by_key_step rows acc !! k
    = match acc !! k with
      | Some cur =>
          if has_value cur then Some cur
          else match List.find (fun r => has_key k r && has_value r) rows with
               | Some r => Some r
               | None => Some cur
               end
      | None => pick_row k rows
      end.
Proof.
  induction rows as [|x rows IH]; intros acc.
  - cbn. destruct (acc !! k) as [cur|]; [|reflexivity].
    destruct (has_value cur); reflexivity.
  - cbn [fold_left]. rewrite IH, by_key_step_at. unfold pick_row.
    cbn [List.find]. unfold has_value at 1 3 4.
    destruct (has_key k x) eqn:K; cbn [andb].
    + destruct (acc !! k) as [cur|].
      * unfold has_value.
        destruct (row_result_value cur) eqn:Ec;
          destruct (row_result_value x) eqn:Ex; cbn;
          unfold has_value; rewrite ?Ec, ?Ex; cbn; reflexivity.
      * unfold has_value.
        destruct (row_result_value x) eqn:Ex; cbn;
          unfold has_value; rewrite ?Ex; cbn; reflexivity.
    + destruct (acc !! k) as [cur|]; reflexivity.
Qed.

(** Under every key the table holds the first row of that key that has a
    value, or the first row of the key when none of them has one; a key
    without row is absent. *)
Lemma build_by_key_pick (rows : list lab_result) (k : str) :
  build_by_key rows !! k = pick_row k rows.
Proof.
  unfold build_by_key. rewrite fold_by_key_at, lookup_empty. reflexivity.
Qed.

Lemma find_value (k : str) (rows : list lab_result) (r : lab_result) :
  List.find (fun r => has_key k r && has_value r) rows = Some r ->
  is_Some (row_result_value r).
Proof.
  intros E. apply find_some in E as [_ E].
  apply andb_true_iff in E as [_ V]. unfold has_value in V.
  destruct (row_result_value r); [eauto | discriminate].
Qed.

Lemma find_key_none (k : str) (rows : list lab_result) :
  List.find (fun r => has_key k r && has_value r) rows = None ->
  forall r, List.find (has_key k) rows = Some r -> row_result_value r = None.
Proof.
  intros N r E. apply find_some in E as [I K].
  pose proof (find_none _ _ N r I) as F. cbn beta in F. rewrite K in F.
  unfold has_value in F. destruct (row_result_value r); [discriminate | reflexivity].
Qed.

(** X15.  The value a rule reads under a key is the value of the first row
    of that test that has one; it reads none exactly when no row of the
    test has a value. *)
Theorem getv_first_value (rows : list lab_result) (key : string) :
  getv (build_by_key rows) key
  = List.find (fun r => has_key (lit key) r && has_value r) rows
    ≫= row_result_value.
Proof.
  unfold getv. rewrite build_by_key_pick. unfold pick_row.
  destruct (List.find (fun r => _ && _) rows) as [r|] eqn:E; [reflexivity|].
  destruct (List.find (has_key (lit key)) rows) as [r|] eqn:E'; [|reflexivity].
  cbn. apply (find_key_none _ _ E r E').
Qed.

End Pick.

(** ** How many insights *)

Section Counts.
Context `{UnicodeData}.
Variable th : gmap string float.

Lemma lab_rules_empty_table : lab_rules th ∅ = [].
Proof. reflexivity. Qed.

(** X16.  [lab_insights] answers the empty list exactly on the empty list
    of rows: with rows, there is always at least the neutral note. *)
Theorem lab_insights_empty_iff (rows : list lab_result) :
  lab_insights th rows = [] <-> rows = [].
Proof.
  split.
  - intros E. destruct rows as [|r rows]; [reflexivity|]. exfalso.
    revert E. apply sort_by_severity_nonempty. unfold lab_emitted.
    destruct (lab_rules th (build_by_key (r :: rows))); discriminate.
  - intros ->. unfold lab_insights, lab_emitted.
    change (build_by_key []) with (∅ : gmap (list N) lab_result).
    rewrite lab_rules_empty_table. reflexivity.
Qed.

End Counts.

(** ** Thresholds that are not set *)

Section Fallbacks.
Context `{UnicodeData}.

(** X17.  The fallback written at each threshold lookup is the value of
    the defaults table: with no threshold set at all, both functions answer
    as with the defaults. *)
Theorem insights_without_thresholds :
  (forall rows, lab_insights ∅ rows = lab_insights DEFAULT_CLINICAL_THRESHOLDS rows)
  /\ (forall ms, measurement_alerts ∅ ms
                 = measurement_alerts DEFAULT_CLINICAL_THRESHOLDS ms).
Proof.
  assert (E : forall k d,
             In (k, d) [("hba1c_critical", 6.5%b64); ("hba1c_warn", 5.7%b64);
                        ("ldl_critical", 190.0%b64); ("ldl_warn", 160.0%b64);
                        ("crp_warn", 10.0%b64); ("weight_rate_warn", 2.0%b64);
                        ("weight_rate_info", 1.0%b64); ("waist_warn", 110.0%b64);
                        ("waist_info", 95.0%b64)] ->
             th_get ∅ k d = th_get DEFAULT_CLINICAL_THRESHOLDS k d).
  { intros k d I. cbn [In] in I.
    repeat (destruct I as [[= <- <-]|I]; [reflexivity|]). destruct I. }
  split.
  - intros rows. unfold lab_insights, lab_emitted, lab_rules.
    unfold glycemic_rule, ldl_rule, crp_rule.
    rewrite !E by (cbn [In]; tauto). reflexivity.
  - intros ms. unfold measurement_alerts, measurement_emitted, measurement_rules.
    unfold weight_change_rule, waist_rule.
    destruct (_ <? _)%nat; [reflexivity|].
    destruct (date_all _) as [keyed|]; [|reflexivity].
    destruct (rev _) as [|latest [|prev rest]]; [reflexivity | reflexivity |].
    rewrite !E by (cbn [In]; tauto). reflexivity.
Qed.

End Fallbacks.

(** ** Errors and sizes of the measurement alerts *)

Section AlertFacts.
Context `{UnicodeData}.
Variable th : gmap string float.

(** X18.  [measurement_alerts] never fails on an index, and it raises the
    error of a malformed date exactly when two or more points have a
    positive weight and one of these has a date that does not parse; the
    dates of the other points are never read. *)
Theorem measurement_alerts_errors (ms : list Measurement) :
  let pts := filter (fun m => weight_bearing m = true) ms in
  measurement_alerts th ms <> Raise IndexError
  /\ (measurement_alerts th ms = Raise ValueError
      <-> (2 <= length pts)%nat
          /\ Exists (fun m => strptime_ymd (measured_at m) = None) pts).
Proof.
  intros pts. unfold measurement_alerts. fold pts.
  destruct (Nat.ltb_spec (length pts) 2) as [L|L].
  { split; [discriminate|]. split; [discriminate | intros [L' _]; lia]. }
  destruct (date_all pts) as [keyed|] eqn:E.
  - pose proof (length_mapM _ _ _ E) as Lk.
    destruct (two_latest (sort_by fst keyed)) as (latest & prev & rest & ->).
    { rewrite sort_by_length. lia. }
    assert (NX : ~ Exists (fun m => strptime_ymd (measured_at m) = None) pts).
    { intros X.
      assert (S : is_Some (date_all pts)) by eauto.
      apply mapM_is_Some in S. rewrite Forall_forall in S.
      apply Exists_exists in X as (m & I & N).
      destruct (S m I) as [d D]. cbn in D. rewrite N in D. discriminate. }
    destruct (measurement_emitted_cases th (sort_by fst keyed) latest prev)
      as [[_ ->]|(rules & em & _ & -> & _)]; cbn;
      (split; [discriminate|]; split; [discriminate|]);
      intros [_ X]; destruct (NX X).
  - split; [discriminate|]. split; [|reflexivity].
    intros _. split; [exact L|].
    apply mapM_None in E. eapply Exists_impl; [exact E|].
    intros m D. cbn beta in D.
    destruct (strptime_ymd (measured_at m)); [discriminate | reflexivity].
Qed.

Ltac solve_mild :=
  repeat match goal with
  | |- context [match ?x with _ => _ end] => destruct x
  end;
  (split;
   [ first [ exact (List.Forall_nil _)
           | constructor;
             [cbn [severity]; congruence | exact (List.Forall_nil _)] ]
   | cbn [length]; lia ]).

Lemma weight_change_rule_mild (latest prev : dated) (l : list Insight) :
  weight_change_rule th latest prev = Ok l -> mild l.
Proof.
  unfold weight_change_rule, fdiv.
  destruct (weight_kg (snd latest)) as [wl|]; [|intros [= <-]; solve_mild].
  destruct (weight_kg (snd prev)) as [wp|]; [|intros [= <-]; solve_mild].
  destruct (_ && _); [|intros [= <-]; solve_mild].
  destruct (is_zero _); cbn; [discriminate|].
  intros [= <-]. unfold mild. solve_mild.
Qed.

Lemma bmi_rule_mild (m : Measurement) (l : list Insight) :
  bmi_rule m = Ok l -> mild l.
Proof.
  unfold bmi_rule. destruct (bmi m) as [b|e]; cbn; [|discriminate].
  intros [= <-]. unfold mild. solve_mild.
Qed.

Lemma waist_rule_mild (m : Measurement) : mild (waist_rule th m).
Proof. unfold mild, waist_rule. solve_mild. Qed.

Lemma trend_rule_mild (ms_sorted : list dated) : mild (trend_rule ms_sorted).
Proof. unfold mild, trend_rule. solve_mild. Qed.

Lemma measurement_rules_mild (ms_sorted : list dated) (latest prev : dated)
  (rules : list Insight) :
  measurement_rules th ms_sorted latest prev = Ok rules ->
  Forall (fun i => severity i <> Critical) rules
  /\ (length rules <= 4)%nat.
Proof.
  unfold measurement_rules.
  destruct (weight_change_rule th latest prev) as [change|] eqn:E1;
    cbn; [|discriminate].
  destruct (bmi_rule (snd latest)) as [mass|] eqn:E2; cbn; [|discriminate].
  intros [= <-].
  destruct (weight_change_rule_mild latest prev change E1) as [F1 L1].
  destruct (bmi_rule_mild (snd latest) mass E2) as [F2 L2].
  destruct (waist_rule_mild (snd latest)) as [F3 L3].
  destruct (trend_rule_mild ms_sorted) as [F4 L4].
  rewrite !length_app, !Forall_app. repeat split; try assumption. lia.
Qed.

(** X19.  A measurement alert is never Critical, and there are at most
    four of them. *)
Theorem measurement_alerts_mild (ms : list Measurement) (out : list Insight) :
  measurement_alerts th ms = Ok out ->
  Forall (fun i => severity i <> Critical) out /\ (length out <= 4)%nat.
Proof.
  intros E. apply measurement_alerts_sorts in E as (emitted & Eo & ->).
  unfold sort_by_severity.
  rewrite sort_by_length, (sort_by_Permutation _ emitted).
  unfold measurement_out in Eo.
  destruct (_ <? _)%nat.
  { injection Eo as <-. split; [repeat constructor; discriminate | cbn; lia]. }
  destruct (date_all _) as [keyed|]; [|discriminate].
  destruct (rev _) as [|latest [|prev rest]]; try discriminate.
  unfold measurement_emitted in Eo.
  destruct (measurement_rules th (sort_by fst keyed) latest prev)
    as [rules|] eqn:R; cbn in Eo; [|discriminate].
  injection Eo as <-.
  pose proof (measurement_rules_mild _ _ _ _ R) as [F L].
  destruct rules.
  - split; [repeat constructor; discriminate | cbn; lia].
  - split; assumption.
Qed.

(** X20.  Points without a positive weight play no part: the answer is
    that of the history without them. *)
Theorem measurement_alerts_weighted_only (ms : list Measurement) :
  measurement_alerts th (filter (fun m => weight_bearing m = true) ms)
  = measurement_alerts th ms.
Proof.
  unfold measurement_alerts.
  rewrite (list_filter_filter _ _ ms).
  rewrite (list_filter_iff _ (fun m => weight_bearing m = true) ms); [reflexivity|].
  intros m. tauto.
Qed.

End AlertFacts.

Lemma measurement_alerts_mild_witness :
  let point d w :=
    mkMeasurement (lit d) (Some 170%b64) (Some w) (Some 112%b64) in
  exists out,
    measurement_alerts DEFAULT_CLINICAL_THRESHOLDS (H := ascii_only)
      [point "2024-03-01" 110%b64; point "2024-02-01" 100%b64;
       point "2024-01-01" 95%b64] = Ok out
    /\ length out = 4%nat
    /\ Forall (fun i => severity i <> Critical) out.
Proof.
  intros point. eexists. split; [vm_compute; reflexivity|].
  split; [reflexivity|].
  eapply (measurement_alerts_mild (H := ascii_only)
            DEFAULT_CLINICAL_THRESHOLDS
            [point "2024-03-01" 110%b64; point "2024-02-01" 100%b64;
             point "2024-01-01" 95%b64]).
  vm_compute. reflexivity.
Defined.

(** ** The body mass index *)


(** The index of 73 kg at 170 cm, and the error at a height of 1e-200. *)
Lemma bmi_examples :
  (exists b,
     bmi (mkMeasurement [] (Some 170%b64) (Some 73%b64) None) = Ok (Some b)
     /\ fmt_f 1 b = "25.3"%string) /\
  bmi (mkMeasurement [] (Some 1e-200%b64) (Some 73%b64) None)
  = Raise ZeroDivisionError.
Proof.
  split.
  - eexists. split; [vm_compute; reflexivity|]. vm_compute. reflexivity.
  - vm_compute. reflexivity.
Qed.

(** ** The key-value settings *)

(** X22.  [set_default] never overwrites: after it the key holds what it
    held before, or the given value if it held nothing; the other keys are
    untouched, and a second [set_default] on the key changes nothing. *)
Theorem set_default_keeps (meta : gmap (list N) (list N)) (key value : str) :
  _get_meta (set_default meta key value) key
    = Some (default value (_get_meta meta key))
  /\ (forall k, k <> key ->
        _get_meta (set_default meta key value) k = _get_meta meta k)
  /\ (forall value',
        set_default (set_default meta key value) key value'
        = set_default meta key value).
Proof.
  unfold set_default, _get_meta, _set_meta.
  destruct (meta !! key) as [v|] eqn:E.
  - split; [cbn beta iota; rewrite E; reflexivity|]. split; [reflexivity|].
    intros value'. cbn beta iota. rewrite E. reflexivity.
  - rewrite lookup_insert_eq. split; [reflexivity|]. split.
    + intros k N. apply lookup_insert_ne. congruence.
    + intros value'. reflexivity.
Qed.

(** X23.  What [set_value] wrote, [get_value] reads back, except the empty
    text, which reads as the default; the other keys read as before. *)
Theorem get_value_after_set_value (meta : gmap (list N) (list N))
  (key value : str) (dflt : option str) :
  get_value (set_value meta key value) key dflt
    = match value with [] => dflt | _ => Some value end
  /\ (forall k, k <> key ->
        get_value (set_value meta key value) k dflt = get_value meta k dflt).
Proof.
  unfold get_value, set_value, _get_meta, _set_meta. split.
  - rewrite lookup_insert_eq. destruct value; reflexivity.
  - intros k N. rewrite lookup_insert_ne by congruence. reflexivity.
Qed.

(** ** Rows of tests no rule knows *)

Lemma find_filter {A} (p q : A -> bool) (l : list A) :
  (forall x, p x = true -> q x = true) ->
  List.find p (filter (fun x => q x = true) l) = List.find p l.
Proof.
  intros Imp. induction l as [|x l IH]; [reflexivity|].
  rewrite filter_cons. cbn [List.find].
  destruct (p x) eqn:P.
  - rewrite decide_True by (apply Imp, P). cbn [List.find]. rewrite P. reflexivity.
  - case_decide; [cbn [List.find]; rewrite P|]; exact IH.
Qed.

Section Recognized.
Context `{UnicodeData}.
Variable th : gmap string float.

(** The rules read the table at their own keys only. *)
Lemma lab_rules_ext (bk bk' : gmap (list N) lab_result) :
  (forall k, k ∈ rule_keys -> bk !! lit k = bk' !! lit k) ->
  lab_rules th bk = lab_rules th bk'.
Proof.
  intros Agree.
  assert (E : forall k, In k rule_keys -> bk !! lit k = bk' !! lit k).
  { intros k I. apply Agree, list_elem_of_In, I. }
  unfold lab_rules, glycemic_rule, ldl_rule, hdl_rule, tg_rule, total_rule,
    liver_rule, thyroid_rule, ferritin_rule, vitd_rule, b12_rule, crp_rule,
    egfr_rule, kreatinin_rule, getv, status_of.
  rewrite (E "glukoz aclik"), (E "glukoz"), (E "hba1c"), (E "ldl"), (E "hdl"),
    (E "trigliserid"), (E "kolesterol total"), (E "alt"), (E "ast"),
    (E "ggt"), (E "tsh"), (E "ferritin"), (E "25 oh vitamin d"),
    (E "vitamin b12"), (E "crp"), (E "hs crp"), (E "egfr"), (E "kreatinin")
    by (cbn [In rule_keys]; tauto).
  reflexivity.
Qed.

Lemma has_key_recognized (k : string) (r : lab_result) :
  k ∈ rule_keys -> has_key (lit k) r = true -> recognized r = true.
Proof.
  intros I K. unfold recognized. apply existsb_exists.
  exists k. split; [apply list_elem_of_In, I | exact K].
Qed.

Lemma pick_row_recognized (k : string) (rows : list lab_result) :
  k ∈ rule_keys ->
  pick_row (lit k) (filter (fun r => recognized r = true) rows)
  = pick_row (lit k) rows.
Proof.
  intros I. unfold pick_row.
  rewrite !(find_filter _ recognized).
  - reflexivity.
  - intros r K. apply (has_key_recognized k r I K).
  - intros r K. apply andb_true_iff in K as [K _].
    apply (has_key_recognized k r I K).
Qed.

(** X24.  Rows of tests that no rule looks up never change what the rules
    find: the insights of a report are those of its recognized rows; when
    it has rows but no recognized one, the answer is the neutral note
    alone. *)
Theorem lab_insights_recognized_only (rows : list lab_result) :
  let known := filter (fun r => recognized r = true) rows in
  (known <> [] -> lab_insights th rows = lab_insights th known)
  /\ (known = [] -> rows <> [] -> lab_insights th rows = [lab_neutral_note]).
Proof.
  intros known.
  assert (R : lab_rules th (build_by_key rows)
              = lab_rules th (build_by_key known)).
  { apply lab_rules_ext. intros k I.
    rewrite !build_by_key_pick. symmetry. apply pick_row_recognized, I. }
  unfold lab_insights, lab_emitted. rewrite R. split.
  - intros NE. destruct rows as [|r rows]; [contradiction NE; reflexivity|].
    destruct known; [contradiction NE; reflexivity | reflexivity].
  - intros E NE. rewrite E.
    change (build_by_key []) with (∅ : gmap (list N) lab_result).
    rewrite lab_rules_empty_table.
    destruct rows; [contradiction NE; reflexivity | reflexivity].
Qed.

End Recognized.

Lemma lab_insights_recognized_only_witness :
  let demir := mkLabResult (lit "Demir") (Some 80%b64) Normal in
  let tsh := mkLabResult (lit "TSH") (Some 12%b64) High in
  lab_insights (H := ascii_only) DEFAULT_CLINICAL_THRESHOLDS [demir; tsh]
  = lab_insights (H := ascii_only) DEFAULT_CLINICAL_THRESHOLDS [tsh]
  /\ lab_insights (H := ascii_only) DEFAULT_CLINICAL_THRESHOLDS [demir]
     = [lab_neutral_note].
Proof.
  intros demir tsh. split.
  - apply (proj1 (lab_insights_recognized_only (H := ascii_only)
                    DEFAULT_CLINICAL_THRESHOLDS [demir; tsh])).
    vm_compute. discriminate.
  - apply (proj2 (lab_insights_recognized_only (H := ascii_only)
                    DEFAULT_CLINICAL_THRESHOLDS [demir])).
    + vm_compute. reflexivity.
    + discriminate.
Defined.
